(** * Truco: the rules engine of [src/Old/truco-app.tsx]

    A shallow embedding of the card ranking, the Envido scorer, the
    opponent's card choice and the event handlers of the [TrucoGame]
    component, followed by the properties of the specification that
    concern them.

    Cards are the objects [{ suit, value }] of the source: the suit is a
    string and the value a number, so that cards outside the Spanish deck
    (a value 8, an unknown suit) can be written down.

    The component is a function that runs anew at every render; its
    handlers are created by that run and see the state values of that
    render as constants.  A handler is therefore modelled as a function of
    the store of its render ([snap]) that transforms the running
    component ([World]): a setter called with a value writes what the
    handler computed from [snap], a setter called with an updater
    [prev => ...] reads the current store, and [setTimeout] queues a
    callback together with [snap]. *)

From Stdlib Require Import ZArith List String Bool Lia Permutation Sorted.
From Stdlib Require Import DecimalString.
Import ListNotations.

Open Scope string_scope.
Open Scope list_scope.
Open Scope Z_scope.

(* ================================================================== *)
(** * Part I: the program *)
(* ================================================================== *)

(** ** Array helpers of the host language *)

Section ArrayHelpers.
Context {A : Type}.

(** [Array.prototype.findIndex]: the index of the first element that
    satisfies [p], or -1. *)
Fixpoint findIndex_from (p : A -> bool) (l : list A) (i : Z) : Z :=
  match l with
  | [] => -1
  | x :: t => if p x then i else findIndex_from p t (i + 1)
  end.

Definition findIndex (p : A -> bool) (l : list A) : Z := findIndex_from p l 0.

(** [arr[i]]: [None] stands for [undefined]. *)
Definition index (l : list A) (i : Z) : option A :=
  if i <? 0 then None else nth_error l (Z.to_nat i).

(** [Array.prototype.sort(cmp)]: the sort is stable; for a consistent
    comparator every stable sort gives the same array, here insertion
    from the right. *)
Fixpoint sort_insert (cmp : A -> A -> Z) (x : A) (l : list A) : list A :=
  match l with
  | [] => [x]
  | y :: t => if cmp x y <=? 0 then x :: l else y :: sort_insert cmp x t
  end.

Definition sort (cmp : A -> A -> Z) (l : list A) : list A :=
  fold_right (sort_insert cmp) [] l.
End ArrayHelpers.

(** ** Cards and the ranking table *)

Record Card : Type := mkCard { suit : string; value : Z }.

(** [a.suit === b.suit && a.value === b.value] *)
Definition card_eqb (a b : Card) : bool :=
  String.eqb (suit a) (suit b) && (value a =? value b).

Definition SUITS : list string := ["espadas"; "bastos"; "oros"; "copas"].
Definition CARD_VALUES : list Z := [1; 2; 3; 4; 5; 6; 7; 10; 11; 12].

(** Card ranking (highest to lowest) *)
Definition CARD_RANKING : list Card :=
  [ mkCard "espadas" 1;
    mkCard "bastos" 1;
    mkCard "espadas" 7;
    mkCard "oros" 7;
    mkCard "espadas" 3; mkCard "bastos" 3;
    mkCard "oros" 3; mkCard "copas" 3;
    mkCard "espadas" 2; mkCard "bastos" 2;
    mkCard "oros" 2; mkCard "copas" 2;
    mkCard "oros" 1; mkCard "copas" 1;
    mkCard "espadas" 12; mkCard "bastos" 12;
    mkCard "oros" 12; mkCard "copas" 12;
    mkCard "espadas" 11; mkCard "bastos" 11;
    mkCard "oros" 11; mkCard "copas" 11;
    mkCard "espadas" 10; mkCard "bastos" 10;
    mkCard "oros" 10; mkCard "copas" 10;
    mkCard "copas" 7; mkCard "bastos" 7;
    mkCard "espadas" 6; mkCard "bastos" 6;
    mkCard "oros" 6; mkCard "copas" 6;
    mkCard "espadas" 5; mkCard "bastos" 5;
    mkCard "oros" 5; mkCard "copas" 5;
    mkCard "espadas" 4; mkCard "bastos" 4;
    mkCard "oros" 4; mkCard "copas" 4 ].

(** [createDeck]: for each suit, for each value, push the card. *)
Definition createDeck : list Card :=
  flat_map (fun s => map (fun v => mkCard s v) CARD_VALUES) SUITS.

Definition getCardRank (card : Card) : Z :=
  findIndex (fun rankedCard => String.eqb (suit rankedCard) (suit card)
                               && (value rankedCard =? value card))
            CARD_RANKING.

(** 1: card1 wins, -1: card2 wins, 0: tie.  Lower index means higher rank. *)
Definition compareCards (card1 card2 : Card) : Z :=
  let rank1 := getCardRank card1 in
  let rank2 := getCardRank card2 in
  if rank1 <? rank2 then 1
  else if rank1 >? rank2 then -1
  else 0.

(** The four cards of one value, in the suit order of [SUITS]; used to
    write the ranking order the way the specification words it. *)
Definition fourOf (v : Z) : list Card := map (fun s => mkCard s v) SUITS.

(** ** Envido points of a hand *)

(** The objects [playerSuits] and [opponentSuits]: a map from suit name to
    an array of numbers.  The keys are kept in the order in which they
    were first written, the order [Object.keys] enumerates them in. *)
Definition SuitGroups : Type := list (string * list Z).

(** [if (!o[k]) o[k] = []; o[k].push(v)] *)
Fixpoint pushValue (o : SuitGroups) (k : string) (v : Z) : SuitGroups :=
  match o with
  | [] => [(k, [v])]
  | (k', vs) :: o' =>
      if String.eqb k' k then (k', vs ++ [v]) :: o' else (k', vs) :: pushValue o' k v
  end.

(** Group cards by suit; face cards count as 0 for envido. *)
Definition groupCard (o : SuitGroups) (card : Card) : SuitGroups :=
  if value card <=? 7 then pushValue o (suit card) (value card)
  else pushValue o (suit card) 0.

Definition groupSuits (cards : list Card) : SuitGroups :=
  fold_left groupCard cards [].

(** The loop over [Object.keys]: every suit with at least two cards
    offers 20 plus its two highest values. *)
Definition pairStep (highest : Z) (entry : string * list Z) : Z :=
  let values := snd entry in
  if Z.of_nat (List.length values) >=? 2 then
    let sortedValues := sort (fun a b => b - a) values in
    let points := 20 + nth 0 sortedValues 0 + nth 1 sortedValues 0 in
    Z.max highest points
  else highest.

(** If no pairs, use highest card. *)
Definition singleStep (highest : Z) (card : Card) : Z :=
  if value card <=? 7 then Z.max highest (value card) else highest.

Definition envidoHighest (cards : list Card) : Z :=
  let highest := fold_left pairStep (groupSuits cards) 0 in
  if highest =? 0 then fold_left singleStep cards highest else highest.

(** *** The score as the specification words it *)

(** A card's value if it is at most 7, and 0 for 10, 11 and 12. *)
Definition substituted (c : Card) : Z :=
  if value c <=? 7 then value c
  else if existsb (Z.eqb (value c)) [10; 11; 12] then 0
  else value c.

Definition listMax (l : list Z) : Z := fold_right Z.max 0 l.

Fixpoint removeOne (x : Z) (l : list Z) : list Z :=
  match l with
  | [] => []
  | y :: t => if x =? y then t else y :: removeOne x t
  end.

(** The highest and the second highest of a list, added. *)
Definition twoHighest (l : list Z) : Z :=
  let m := listMax l in m + listMax (removeOne m l).

Definition suitValues (hand : list Card) (s : string) : list Z :=
  map substituted (filter (fun c => String.eqb (suit c) s) hand).

Definition envido_spec (hand : list Card) : Z :=
  let pairScores :=
    flat_map (fun s => let vs := suitValues hand s in
                       if (2 <=? List.length vs)%nat then [20 + twoHighest vs] else [])
             SUITS in
  match pairScores with
  | [] => listMax (map substituted hand)
  | _ => listMax pairScores
  end.

(** Three cards are a dealt hand when they are distinct. *)
Definition distinct3 (a b c : Card) : bool :=
  negb (card_eqb a b) && negb (card_eqb a c) && negb (card_eqb b c).

Definition envido_agrees (a b c : Card) : bool :=
  let h := [a; b; c] in
  (envidoHighest h =? envido_spec h) && (0 <=? envidoHighest h) && (envidoHighest h <=? 33).

(** Boolean membership and duplicate-freeness, for checking finite facts
    about the table by evaluation. *)
Definition mem (c : Card) (l : list Card) : bool := existsb (card_eqb c) l.

Fixpoint nodupb (l : list Card) : bool :=
  match l with
  | [] => true
  | x :: t => negb (mem x t) && nodupb t
  end.

(** ** The component's state

    The values held by the [useState] hooks of [TrucoGame] that the rules
    read or write.  The three hooks that only drive the display
    ([showRankings], [showAdvice], [cardExplanation]) are left out. *)

Record Sides (A : Type) : Type := mkSides { player : A; opponent : A }.
Arguments mkSides {A} _ _.
Arguments player {A} _.
Arguments opponent {A} _.

(** An entry of [rounds]. *)
Record Round : Type := mkRound { playerCard : Card; opponentCard : Card; winner : string }.

Record Store : Type := mkStore {
  deck : list Card;
  playerHand : list Card;
  opponentHand : list Card;
  playerScore : Z;
  opponentScore : Z;
  roundCards : Sides (option Card);
  rounds : list Round;
  currentRound : Z;
  gameState : string;
  truco : bool;
  trucoValue : Z;
  message : string;
  envido : bool;
  envidoPoints : Sides Z;
  roundWins : Sides Z }.

(** One field replaced, the others kept. *)

Definition with_deck (v : list Card) (s : Store) : Store :=
  mkStore v (playerHand s) (opponentHand s) (playerScore s) (opponentScore s)
    (roundCards s) (rounds s) (currentRound s) (gameState s) (truco s)
    (trucoValue s) (message s) (envido s) (envidoPoints s) (roundWins s).

Definition with_playerHand (v : list Card) (s : Store) : Store :=
  mkStore (deck s) v (opponentHand s) (playerScore s) (opponentScore s)
    (roundCards s) (rounds s) (currentRound s) (gameState s) (truco s)
    (trucoValue s) (message s) (envido s) (envidoPoints s) (roundWins s).

Definition with_opponentHand (v : list Card) (s : Store) : Store :=
  mkStore (deck s) (playerHand s) v (playerScore s) (opponentScore s)
    (roundCards s) (rounds s) (currentRound s) (gameState s) (truco s)
    (trucoValue s) (message s) (envido s) (envidoPoints s) (roundWins s).

Definition with_playerScore (v : Z) (s : Store) : Store :=
  mkStore (deck s) (playerHand s) (opponentHand s) v (opponentScore s)
    (roundCards s) (rounds s) (currentRound s) (gameState s) (truco s)
    (trucoValue s) (message s) (envido s) (envidoPoints s) (roundWins s).

Definition with_opponentScore (v : Z) (s : Store) : Store :=
  mkStore (deck s) (playerHand s) (opponentHand s) (playerScore s) v
    (roundCards s) (rounds s) (currentRound s) (gameState s) (truco s)
    (trucoValue s) (message s) (envido s) (envidoPoints s) (roundWins s).

Definition with_roundCards (v : Sides (option Card)) (s : Store) : Store :=
  mkStore (deck s) (playerHand s) (opponentHand s) (playerScore s)
    (opponentScore s) v (rounds s) (currentRound s) (gameState s) (truco s)
    (trucoValue s) (message s) (envido s) (envidoPoints s) (roundWins s).

Definition with_rounds (v : list Round) (s : Store) : Store :=
  mkStore (deck s) (playerHand s) (opponentHand s) (playerScore s)
    (opponentScore s) (roundCards s) v (currentRound s) (gameState s)
    (truco s) (trucoValue s) (message s) (envido s) (envidoPoints s)
    (roundWins s).

Definition with_currentRound (v : Z) (s : Store) : Store :=
  mkStore (deck s) (playerHand s) (opponentHand s) (playerScore s)
    (opponentScore s) (roundCards s) (rounds s) v (gameState s) (truco s)
    (trucoValue s) (message s) (envido s) (envidoPoints s) (roundWins s).

Definition with_gameState (v : string) (s : Store) : Store :=
  mkStore (deck s) (playerHand s) (opponentHand s) (playerScore s)
    (opponentScore s) (roundCards s) (rounds s) (currentRound s) v (truco s)
    (trucoValue s) (message s) (envido s) (envidoPoints s) (roundWins s).

Definition with_truco (v : bool) (s : Store) : Store :=
  mkStore (deck s) (playerHand s) (opponentHand s) (playerScore s)
    (opponentScore s) (roundCards s) (rounds s) (currentRound s) (gameState s)
    v (trucoValue s) (message s) (envido s) (envidoPoints s) (roundWins s).

Definition with_trucoValue (v : Z) (s : Store) : Store :=
  mkStore (deck s) (playerHand s) (opponentHand s) (playerScore s)
    (opponentScore s) (roundCards s) (rounds s) (currentRound s) (gameState s)
    (truco s) v (message s) (envido s) (envidoPoints s) (roundWins s).

Definition with_message (v : string) (s : Store) : Store :=
  mkStore (deck s) (playerHand s) (opponentHand s) (playerScore s)
    (opponentScore s) (roundCards s) (rounds s) (currentRound s) (gameState s)
    (truco s) (trucoValue s) v (envido s) (envidoPoints s) (roundWins s).

Definition with_envido (v : bool) (s : Store) : Store :=
  mkStore (deck s) (playerHand s) (opponentHand s) (playerScore s)
    (opponentScore s) (roundCards s) (rounds s) (currentRound s) (gameState s)
    (truco s) (trucoValue s) (message s) v (envidoPoints s) (roundWins s).

Definition with_envidoPoints (v : Sides Z) (s : Store) : Store :=
  mkStore (deck s) (playerHand s) (opponentHand s) (playerScore s)
    (opponentScore s) (roundCards s) (rounds s) (currentRound s) (gameState s)
    (truco s) (trucoValue s) (message s) (envido s) v (roundWins s).

Definition with_roundWins (v : Sides Z) (s : Store) : Store :=
  mkStore (deck s) (playerHand s) (opponentHand s) (playerScore s)
    (opponentScore s) (roundCards s) (rounds s) (currentRound s) (gameState s)
    (truco s) (trucoValue s) (message s) (envido s) (envidoPoints s) v.

(** A callback handed to [setTimeout].  It runs with the values of the
    render in which it was created (its [closure]), whatever the store
    holds by the time it fires. *)
Inductive Callback : Type :=
| OpponentTurn (newPlayerHand : list Card)  (* () => playOpponentCard(newPlayerHand) *)
| Evaluate (cardToPlay : Card)              (* () => evaluateRound(cardToPlay) *)
| ClearRound (newRoundWins : Sides Z)       (* the delayed block of evaluateRound *)
| GameEndCheck                              (* the block nested in it *)
| EnvidoAnnounce (playerPoints opponentPoints : Z)
| EnvidoResolve (playerPoints opponentPoints : Z).

Record Timer : Type := mkTimer { due : Z; closure : Store; callback : Callback }.

(** The running component: a clock in milliseconds, the current values
    of the store and the pending timers in the order they were set. *)
Record World : Type := mkWorld { now : Z; store : Store; timers : list Timer }.

(** ** Handlers as state transformers that may throw

    A handler either returns or throws; the updates it has queued before
    throwing stay in the store. *)

Inductive JsError : Type := TypeError.

Inductive Outcome (A : Type) : Type :=
| Return (a : A)
| Throw (e : JsError).
Arguments Return {A} _.
Arguments Throw {A} _.

Definition M (A : Type) : Type := World -> Outcome A * World.

Definition ret {A} (a : A) : M A := fun w => (Return a, w).

Definition throw {A} (e : JsError) : M A := fun w => (Throw e, w).

Definition bind {A B} (m : M A) (f : A -> M B) : M B :=
  fun w => match m w with
           | (Return a, w') => f a w'
           | (Throw e, w') => (Throw e, w')
           end.

Declare Scope js_scope.
Delimit Scope js_scope with js.
Notation "x <- c1 ;; c2" := (bind c1 (fun x => c2))
  (at level 61, c1 at next level, right associativity) : js_scope.
Notation "c1 ;; c2" := (bind c1 (fun _ => c2))
  (at level 61, right associativity) : js_scope.
Open Scope js_scope.

Definition modify (f : Store -> Store) : M unit :=
  fun w => (Return tt, mkWorld (now w) (f (store w)) (timers w)).

(** [setTimeout(cb, delay)] called from a handler of the render [snap]. *)
Definition setTimeout (delay : Z) (snap : Store) (cb : Callback) : M unit :=
  fun w => (Return tt,
            mkWorld (now w) (store w) (timers w ++ [mkTimer (now w + delay) snap cb])).

(** The state setters, called with a value ... *)
Definition setDeck (v : list Card) : M unit := modify (with_deck v).
Definition setPlayerHand (v : list Card) : M unit := modify (with_playerHand v).
Definition setOpponentHand (v : list Card) : M unit := modify (with_opponentHand v).
Definition setPlayerScore (v : Z) : M unit := modify (with_playerScore v).
Definition setOpponentScore (v : Z) : M unit := modify (with_opponentScore v).
Definition setRoundCards (v : Sides (option Card)) : M unit := modify (with_roundCards v).
Definition setRounds (v : list Round) : M unit := modify (with_rounds v).
Definition setCurrentRound (v : Z) : M unit := modify (with_currentRound v).
Definition setGameState (v : string) : M unit := modify (with_gameState v).
Definition setTruco (v : bool) : M unit := modify (with_truco v).
Definition setTrucoValue (v : Z) : M unit := modify (with_trucoValue v).
Definition setMessage (v : string) : M unit := modify (with_message v).
Definition setEnvido (v : bool) : M unit := modify (with_envido v).
Definition setEnvidoPoints (v : Sides Z) : M unit := modify (with_envidoPoints v).
Definition setRoundWins (v : Sides Z) : M unit := modify (with_roundWins v).

(** ... or with an updater [prev => ...], applied to the current value. *)
Definition updPlayerScore (f : Z -> Z) : M unit :=
  modify (fun s => with_playerScore (f (playerScore s)) s).
Definition updOpponentScore (f : Z -> Z) : M unit :=
  modify (fun s => with_opponentScore (f (opponentScore s)) s).
Definition updRoundCards (f : Sides (option Card) -> Sides (option Card)) : M unit :=
  modify (fun s => with_roundCards (f (roundCards s)) s).
Definition updCurrentRound (f : Z -> Z) : M unit :=
  modify (fun s => with_currentRound (f (currentRound s)) s).

(** ** Messages *)

(** A template literal: its pieces joined. *)
Definition template (parts : list string) : string := String.concat EmptyString parts.

(** A number inside a template literal. *)
Definition showNumber (z : Z) : string := NilZero.string_of_int (Z.to_int z).

(** [SPANISH_NAMES[v]] inside a template literal. *)
Definition spanishName (v : Z) : string :=
  if v =? 1 then "As" else if v =? 2 then "Dos" else if v =? 3 then "Tres"
  else if v =? 4 then "Cuatro" else if v =? 5 then "Cinco" else if v =? 6 then "Seis"
  else if v =? 7 then "Siete" else if v =? 10 then "Sota" else if v =? 11 then "Caballo"
  else if v =? 12 then "Rey" else "undefined".

(** [SUIT_NAMES[s]] inside a template literal. *)
Definition suitName (s : string) : string :=
  if String.eqb s "espadas" then "Espadas" else if String.eqb s "bastos" then "Bastos"
  else if String.eqb s "oros" then "Oros" else if String.eqb s "copas" then "Copas"
  else "undefined".

(** ** Dealing *)

Definition calculateEnvidoPoints (playerCards opponentCards : list Card) : M unit :=
  setEnvidoPoints (mkSides (envidoHighest playerCards) (envidoHighest opponentCards)).

(** [startNewHand]; the outcome [newDeck] of [shuffleDeck(createDeck())]
    is taken as an argument. *)
Definition startNewHand (newDeck : list Card) : M unit :=
  let newPlayerHand := firstn 3 newDeck in
  let newOpponentHand := firstn 3 (skipn 3 newDeck) in
  setDeck (skipn 6 newDeck) ;;
  setPlayerHand newPlayerHand ;;
  setOpponentHand newOpponentHand ;;
  setRounds [] ;;
  setCurrentRound 1 ;;
  setGameState "playing" ;;
  setTruco false ;;
  setTrucoValue 1 ;;
  setEnvido false ;;
  setRoundCards (mkSides None None) ;;
  setRoundWins (mkSides 0 0) ;;
  setMessage "New hand dealt! You have the first play. Consider your cards carefully." ;;
  calculateEnvidoPoints newPlayerHand newOpponentHand.

(** ** Playing a card *)

Definition playCard (snap : Store) (card : Card) : M unit :=
  if negb (String.eqb (gameState snap) "playing") then ret tt
  else
    let newPlayerHand :=
      filter (fun c => negb (String.eqb (suit c) (suit card) && (value c =? value card)))
             (playerHand snap) in
    setPlayerHand newPlayerHand ;;
    updRoundCards (fun prev => mkSides (Some card) (opponent prev)) ;;
    setMessage (template ["You played "; spanishName (value card); " de ";
                          suitName (suit card); "."]) ;;
    setTimeout 1000 snap (OpponentTurn newPlayerHand).

(** ** The opponent's reply *)

(** The opponent's hand sorted by rank and reversed. *)
Definition sortedHandOf (hand : list Card) : list Card :=
  rev (sort (fun a b => getCardRank a - getCardRank b) hand).

(** The card chosen against a card on the table: the first card of the
    sorted hand that beats it, else the last card of the sorted hand. *)
Definition chooseCard (hand : list Card) (playerCard : Card) : option Card :=
  let sortedHand := sortedHandOf hand in
  match find (fun card => compareCards card playerCard >? 0) sortedHand with
  | Some cardToPlay => Some cardToPlay
  | None => index sortedHand (Z.of_nat (List.length sortedHand) - 1)
  end.

Definition playOpponentCard (snap : Store) (newPlayerHand : list Card) : M unit :=
  let sortedHand := sortedHandOf (opponentHand snap) in
  cardToPlay <-
    match player (roundCards snap), sortedHand with
    | Some playerCard, _ => ret (chooseCard (opponentHand snap) playerCard)
    | None, [] => ret None
    | None, _ :: _ => throw TypeError  (* getCardRank(null) reads null.suit *)
    end ;;
  match cardToPlay with
  | Some cardToPlay =>
      let newOpponentHand :=
        filter (fun c => negb (String.eqb (suit c) (suit cardToPlay)
                               && (value c =? value cardToPlay)))
               (opponentHand snap) in
      setOpponentHand newOpponentHand ;;
      updRoundCards (fun prev => mkSides (player prev) (Some cardToPlay)) ;;
      setMessage (template ["Opponent played "; spanishName (value cardToPlay); " de ";
                            suitName (suit cardToPlay); "."]) ;;
      setTimeout 1000 snap (Evaluate cardToPlay)
  | None =>
      (* cardToPlay is undefined: the hand is empty, the filter has
         nothing to test, and the message reads undefined.value *)
      setOpponentHand [] ;;
      updRoundCards (fun prev => mkSides (player prev) None) ;;
      throw TypeError
  end.

(** ** Resolving a trick *)

(** The three-way test of [evaluateRound]: the winner of the trick, the
    round wins that follow, and the message. *)
Definition trickOutcome (snap : Store) (playerCard opponentCard : Card)
  : string * Sides Z * string :=
  let result := compareCards playerCard opponentCard in
  let newRoundWins := roundWins snap in
  if result >? 0 then
    ("player", mkSides (player newRoundWins + 1) (opponent newRoundWins),
     "You won this round!")
  else if result <? 0 then
    ("opponent", mkSides (player newRoundWins) (opponent newRoundWins + 1),
     "Opponent won this round.")
  else ("tie", newRoundWins, "This round is tied!").

Definition evaluateRound (snap : Store) (opponentCard : Card) : M unit :=
  match player (roundCards snap) with
  | None => throw TypeError  (* compareCards(null, opponentCard) *)
  | Some playerCard =>
      let '(roundWinner, newRoundWins, text) :=
        trickOutcome snap playerCard opponentCard in
      setMessage text ;;
      (* Record the round *)
      setRounds (rounds snap ++ [mkRound playerCard opponentCard roundWinner]) ;;
      setRoundWins newRoundWins ;;
      (* Clear round cards after a delay *)
      setTimeout 1500 snap (ClearRound newRoundWins)
  end.

(** Check if hand is over (i.e., someone won 2 rounds or all cards played) *)
Definition handIsOver (snap : Store) (newRoundWins : Sides Z) : bool :=
  (player newRoundWins >=? 2) || (opponent newRoundWins >=? 2)
  || ((Z.of_nat (List.length (playerHand snap)) =? 0)
      && (Z.of_nat (List.length (opponentHand snap)) =? 0))
  || (currentRound snap >=? 3).

(** The local variable [handWinner] once the hand winner is determined. *)
Definition handWinner (snap : Store) (newRoundWins : Sides Z) : string :=
  if player newRoundWins >? opponent newRoundWins then "player"
  else if player newRoundWins <? opponent newRoundWins then "opponent"
  else match find (fun round => negb (String.eqb (winner round) "tie")) (rounds snap) with
       | Some firstWin => winner firstWin
       | None => EmptyString
       end.

(** Check for game end *)
Definition gameEndCheck (snap : Store) : M unit :=
  if (playerScore snap >=? 15) || (opponentScore snap >=? 15) then
    setGameState "gameEnd" ;;
    if playerScore snap >=? 15 then setMessage "Congratulations! You won the game!"
    else setMessage "Game over! Opponent won the game."
  else setMessage "Click 'Next Hand' to continue.".

(** The delayed block of [evaluateRound]: the trick slots are cleared and
    the hand is closed or goes on. *)
Definition clearRound (snap : Store) (newRoundWins : Sides Z) : M unit :=
  setRoundCards (mkSides None None) ;;
  if handIsOver snap newRoundWins then
    (if player newRoundWins >? opponent newRoundWins then
       updPlayerScore (fun prevScore => prevScore + trucoValue snap) ;;
       setMessage (template ["You won the hand! +"; showNumber (trucoValue snap); " points"])
     else if player newRoundWins <? opponent newRoundWins then
       updOpponentScore (fun prevScore => prevScore + trucoValue snap) ;;
       setMessage (template ["Opponent won the hand. +"; showNumber (trucoValue snap);
                             " points for them."])
     else
       (* Ties are won by the player who won the first non-tied round *)
       match find (fun round => negb (String.eqb (winner round) "tie")) (rounds snap) with
       | Some firstWin =>
           if String.eqb (winner firstWin) "player" then
             updPlayerScore (fun prevScore => prevScore + trucoValue snap) ;;
             setMessage (template ["Tied hand resolved by first win rule. You win! +";
                                   showNumber (trucoValue snap); " points"])
           else
             updOpponentScore (fun prevScore => prevScore + trucoValue snap) ;;
             setMessage (template ["Tied hand resolved by first win rule. Opponent wins. +";
                                   showNumber (trucoValue snap); " points for them."])
       | None => setMessage "Completely tied hand! No points awarded."
       end) ;;
    setGameState "roundEnd" ;;
    setTimeout 1500 snap GameEndCheck
  else
    (* Continue to next round *)
    updCurrentRound (fun prevRound => prevRound + 1) ;;
    setGameState "playing".

(** ** Truco and Envido calls *)

Definition callTruco (snap : Store) : M unit :=
  if truco snap then
    (* Already called, increase the value *)
    let newValue := trucoValue snap + 1 in
    if newValue >? 4 then ret tt  (* Max is Vale Cuatro (4) *)
    else
      setTrucoValue newValue ;;
      let callName :=
        if newValue =? 2 then "Retruco"
        else if newValue =? 3 then "Vale Tres"
        else if newValue =? 4 then "Vale Cuatro"
        else EmptyString in
      setMessage (template ["You called "; callName; "! Opponent accepted, playing for ";
                            showNumber newValue; " points."])
  else
    (* First Truco call *)
    setTruco true ;;
    setTrucoValue 2 ;;
    setMessage "You called Truco! Opponent accepted, playing for 2 points.".

Definition callEnvido (snap : Store) : M unit :=
  if envido snap then ret tt  (* Already called *)
  else
    setEnvido true ;;
    let playerPoints := player (envidoPoints snap) in
    let opponentPoints := opponent (envidoPoints snap) in
    setTimeout 1000 snap (EnvidoAnnounce playerPoints opponentPoints).

Definition envidoAnnounce (snap : Store) (playerPoints opponentPoints : Z) : M unit :=
  setMessage (template ["Envido called! Your points: "; showNumber playerPoints;
                        ", Opponent's points: "; showNumber opponentPoints]) ;;
  (* Determine winner after a delay *)
  setTimeout 2000 snap (EnvidoResolve playerPoints opponentPoints).

Definition envidoResolve (playerPoints opponentPoints : Z) : M unit :=
  if playerPoints >? opponentPoints then
    updPlayerScore (fun prev => prev + 2) ;;
    setMessage (template ["You win the Envido! +2 points (Your "; showNumber playerPoints;
                          " vs Opponent's "; showNumber opponentPoints; ")"])
  else if playerPoints <? opponentPoints then
    updOpponentScore (fun prev => prev + 2) ;;
    setMessage (template ["Opponent wins the Envido. +2 points for them (Your ";
                          showNumber playerPoints; " vs Opponent's ";
                          showNumber opponentPoints; ")"])
  else
    (* In a tie, the dealer wins (we'll say opponent is dealer) *)
    updOpponentScore (fun prev => prev + 2) ;;
    setMessage (template ["Envido tied at "; showNumber playerPoints;
                          " points. Dealer (opponent) wins. +2 points for them."]).

(** ** Timers *)

Definition fire (t : Timer) : M unit :=
  match callback t with
  | OpponentTurn newPlayerHand => playOpponentCard (closure t) newPlayerHand
  | Evaluate cardToPlay => evaluateRound (closure t) cardToPlay
  | ClearRound newRoundWins => clearRound (closure t) newRoundWins
  | GameEndCheck => gameEndCheck (closure t)
  | EnvidoAnnounce playerPoints opponentPoints =>
      envidoAnnounce (closure t) playerPoints opponentPoints
  | EnvidoResolve playerPoints opponentPoints => envidoResolve playerPoints opponentPoints
  end.

(** The next timer to fire: the earliest due, and among equals the one
    set first. *)
Fixpoint popEarliest (ts : list Timer) : option (Timer * list Timer) :=
  match ts with
  | [] => None
  | t :: rest =>
      match popEarliest rest with
      | None => Some (t, [])
      | Some (t', rest') =>
          if due t <=? due t' then Some (t, rest) else Some (t', t :: rest')
      end
  end.

(** Let the next timer fire.  An exception thrown by a callback is
    reported and the component lives on. *)
Definition step (w : World) : option (Callback * Outcome unit * World) :=
  match popEarliest (timers w) with
  | None => None
  | Some (t, rest) =>
      let (o, w') := fire t (mkWorld (Z.max (now w) (due t)) (store w) rest) in
      Some (callback t, o, w')
  end.

(** Let the pending timers fire, at most [fuel] of them, with no click in
    between; the callbacks that fired are listed in order, each with its
    outcome. *)
Fixpoint settle (fuel : nat) (w : World) : list (Callback * Outcome unit) * World :=
  match fuel with
  | O => ([], w)
  | S fuel' =>
      match step w with
      | None => ([], w)
      | Some (cb, o, w') => let (os, w'') := settle fuel' w' in ((cb, o) :: os, w'')
      end
  end.

(** ** The rendered controls

    A click runs the handler of the current render: its closure is the
    store at the time of the click. *)

Definition isNull {A} (o : option A) : bool :=
  match o with None => true | Some _ => false end.

(** A card of the player's hand is rendered playable under this test;
    clicking a card that is not playable opens its explanation and leaves
    the store alone. *)
Definition playable (s : Store) : bool :=
  String.eqb (gameState s) "playing" && isNull (player (roundCards s)).

Definition clickCard (card : Card) : M unit :=
  fun w =>
    if mem card (playerHand (store w)) && playable (store w)
    then playCard (store w) card w
    else (Return tt, w).

(** The Truco and Envido buttons are rendered under
    [gameState === 'playing' && !roundCards.player]. *)
Definition controlsShown (s : Store) : bool :=
  String.eqb (gameState s) "playing" && isNull (player (roundCards s)).

(** [disabled={trucoValue >= 4}] *)
Definition clickTruco : M unit :=
  fun w =>
    if controlsShown (store w) && negb (trucoValue (store w) >=? 4)
    then callTruco (store w) w
    else (Return tt, w).

(** [disabled={envido || currentRound > 1}] *)
Definition envidoEnabled (s : Store) : bool :=
  controlsShown s && negb (envido s || (currentRound s >? 1)).

Definition clickEnvido : M unit :=
  fun w => if envidoEnabled (store w) then callEnvido (store w) w else (Return tt, w).

(** The "Next Hand" button, rendered in state [roundEnd]. *)
Definition clickNextHand (newDeck : list Card) : M unit :=
  fun w =>
    if String.eqb (gameState (store w)) "roundEnd" then startNewHand newDeck w
    else (Return tt, w).

(** The "New Game" button, rendered in state [gameEnd]. *)
Definition clickNewGame (newDeck : list Card) : M unit :=
  fun w =>
    if String.eqb (gameState (store w)) "gameEnd"
    then (setPlayerScore 0 ;; setOpponentScore 0 ;; startNewHand newDeck) w
    else (Return tt, w).

(** ** The hand winner as the specification words it *)

(** The tricks a side has won among the recorded outcomes. *)
Definition trickWins (side : string) (tricks : list string) : Z :=
  Z.of_nat (count_occ string_dec tricks side).

(** The side with more trick wins; on equal wins whoever won the first
    trick that was not tied; nobody when every trick was tied. *)
Definition handWinner_spec (tricks : list string) : string :=
  if trickWins "player" tricks >? trickWins "opponent" tricks then "player"
  else if trickWins "player" tricks <? trickWins "opponent" tricks then "opponent"
  else match find (fun w => negb (String.eqb w "tie")) tricks with
       | Some w => w
       | None => EmptyString
       end.

(** The points a side receives for the hand. *)
Definition award (side handWinner : string) (points : Z) : Z :=
  if String.eqb handWinner side then points else 0.

(** The record of a hand in progress: every recorded trick names its
    winner, and [roundWins] counts the recorded tricks of each side. *)
Definition tricksRecorded (s : Store) : Prop :=
  Forall (fun r => In (winner r) ["player"; "opponent"; "tie"]) (rounds s)
  /\ player (roundWins s) = trickWins "player" (map winner (rounds s))
  /\ opponent (roundWins s) = trickWins "opponent" (map winner (rounds s)).

(** A trick resolved in the render [s] at time [t]: [evaluateRound]
    followed by its two delayed blocks, no click in between. *)
Definition afterTrick (s : Store) (opponentCard : Card) (t : Z) : World :=
  snd (settle 2 (snd (evaluateRound s opponentCard (mkWorld t s [])))).

(** ** Sequences of calls and events *)

(** [n] calls of [callTruco], each made in the render that follows the
    call before it. *)
Fixpoint callTrucoTimes (n : nat) (w : World) : World :=
  match n with
  | O => w
  | S n' => let w' := callTrucoTimes n' w in snd (callTruco (store w') w')
  end.

(** What can happen while a hand is played: a click on a card of the
    hand, on one of the two call buttons, or the next timer firing.  The
    "Next Hand" and "New Game" buttons start another hand. *)
Inductive HandEvent : Type :=
| CardClicked (card : Card)
| TrucoClicked
| EnvidoClicked
| TimerFired.

Definition handEvent (e : HandEvent) (w : World) : World :=
  match e with
  | CardClicked card => snd (clickCard card w)
  | TrucoClicked => snd (clickTruco w)
  | EnvidoClicked => snd (clickEnvido w)
  | TimerFired => match step w with
                  | Some (_, _, w') => w'
                  | None => w
                  end
  end.

Definition handEvents (es : list HandEvent) (w : World) : World :=
  fold_left (fun w e => handEvent e w) es w.

(** ** The first render *)

(** The initial values of the hooks. *)
Definition initialStore : Store :=
  mkStore [] [] [] 0 0 (mkSides None None) [] 1 "dealing" false 1
          "Welcome to Truco! I'll help you learn the game." false
          (mkSides 0 0) (mkSides 0 0).

(** The effect that runs once after the first render deals a hand. *)
Definition mount (newDeck : list Card) : World :=
  snd (startNewHand newDeck (mkWorld 0 initialStore [])).

(** ** States used in the examples *)

(** A store between two tricks of a hand: nobody has played, nothing is
    called, nothing is scored. *)
Definition idleStore : Store :=
  mkStore [] [] [] 0 0 (mkSides None None) [] 1 "playing" false 1 EmptyString false
          (mkSides 0 0) (mkSides 0 0).

(** The world of a render with no timer pending. *)
Definition quiet (s : Store) : World := mkWorld 0 s [].

(** ** Shuffling the deck *)

Section Shuffle.
Context {A : Type}.

(** [arr[n] = v] for an index inside the array. *)
Fixpoint assign (l : list A) (n : nat) (v : A) : list A :=
  match l, n with
  | [], _ => []
  | _ :: t, O => v :: t
  | x :: t, S n' => x :: assign t n' v
  end.

(** [[arr[i], arr[j]] = [arr[j], arr[i]]]: both entries are read, then
    written crosswise.  [None] when an index lies outside the array, where
    the source would move [undefined] into it. *)
Definition swapAt (l : list A) (i j : Z) : option (list A) :=
  match index l i, index l j with
  | Some a, Some b => Some (assign (assign l (Z.to_nat i) b) (Z.to_nat j) a)
  | _, _ => None
  end.

(** The loop of [shuffleDeck], from index [i] down to 1.  [draw i] is the
    value of [Math.floor(Math.random() * (i + 1))] at index [i]. *)
Fixpoint shuffleFrom (draw : Z -> Z) (i : nat) (shuffled : list A) : option (list A) :=
  match i with
  | O => Some shuffled
  | S i' =>
      match swapAt shuffled (Z.of_nat i) (draw (Z.of_nat i)) with
      | Some shuffled' => shuffleFrom draw i' shuffled'
      | None => None
      end
  end.

Definition shuffleDeck (draw : Z -> Z) (deck : list A) : option (list A) :=
  shuffleFrom draw (List.length deck - 1) deck.
End Shuffle.

(** ** Checks on dealt hands, decided by evaluation *)

(** The points of the six orders of a hand agree. *)
Definition envido_same_in_any_order (a b c : Card) : bool :=
  let v := envidoHighest [a; b; c] in
  (envidoHighest [a; c; b] =? v) && (envidoHighest [b; a; c] =? v)
  && (envidoHighest [b; c; a] =? v) && (envidoHighest [c; a; b] =? v)
  && (envidoHighest [c; b; a] =? v).

Definition shareSuit (a b c : Card) : bool :=
  String.eqb (suit a) (suit b) || String.eqb (suit a) (suit c)
  || String.eqb (suit b) (suit c).

(** At least 20 with two cards of a suit, at most 7 without. *)
Definition envido_pair_rule (a b c : Card) : bool :=
  if shareSuit a b c then 20 <=? envidoHighest [a; b; c]
  else envidoHighest [a; b; c] <=? 7.

(** ** The whole of the controls *)

(** A Truco value that is not negative, in the store and in the render
    of every pending callback. *)
Definition trucoValuesSane (w : World) : Prop :=
  0 <= trucoValue (store w)
  /\ Forall (fun t => 0 <= trucoValue (closure t)) (timers w).

(** Nothing called at value 1, or Truco called at a value from 2 to 4. *)
Definition trucoShape (s : Store) : Prop :=
  (truco s = false /\ trucoValue s = 1) \/ (truco s = true /\ 2 <= trucoValue s <= 4).

(** Every click the component offers, and the firing of a timer. *)
Inductive UiEvent : Type :=
| DuringHand (e : HandEvent)
| NextHandClicked (newDeck : list Card)
| NewGameClicked (newDeck : list Card).

Definition uiEvent (e : UiEvent) (w : World) : World :=
  match e with
  | DuringHand e => handEvent e w
  | NextHandClicked newDeck => snd (clickNextHand newDeck w)
  | NewGameClicked newDeck => snd (clickNewGame newDeck w)
  end.

Definition uiEvents (es : list UiEvent) (w : World) : World :=
  fold_left (fun w e => uiEvent e w) es w.

(** ** Advice and explanations *)

(** [getCardAdvice], evaluated in the render [s]: the advice, or the
    error of reading a property of [undefined]. *)
Definition getCardAdvice (s : Store) : Outcome string :=
  if Z.of_nat (List.length (playerHand s)) =? 0 then
    Return "You have no cards left to play."
  else
    (* Sort hand by rank (worst to best) *)
    let sortedHand :=
      rev (sort (fun a b => getCardRank a - getCardRank b) (playerHand s)) in
    let about (entry : option Card) (text : Card -> string) : Outcome string :=
      match entry with
      | Some card => Return (text card)
      | None => Throw TypeError
      end in
    if (currentRound s =? 1) && (Z.of_nat (List.length (playerHand s)) >=? 2) then
      about (index sortedHand 1) (fun midCard =>
        template ["Consider playing your "; spanishName (value midCard); " de ";
                  suitName (suit midCard);
                  ". It's a mid-strength card, letting you save stronger cards for later rounds."])
    else if player (roundWins s) >? opponent (roundWins s) then
      about (index sortedHand (Z.of_nat (List.length sortedHand) - 1)) (fun weakestCard =>
        template ["You're ahead in rounds! Consider playing your weakest card (";
                  spanishName (value weakestCard); " de "; suitName (suit weakestCard);
                  ") to preserve strength."])
    else if player (roundWins s) <? opponent (roundWins s) then
      about (index sortedHand 0) (fun strongestCard =>
        template ["You need this round! Consider playing your strongest card (";
                  spanishName (value strongestCard); " de ";
                  suitName (suit strongestCard); ")."])
    else
      about (index sortedHand 0) (fun bestCard =>
        template ["Your strongest card is "; spanishName (value bestCard); " de ";
                  suitName (suit bestCard); "."]).

(** [SPECIAL_CARDS[key]] *)
Definition SPECIAL_CARDS (key : string) : option string :=
  if String.eqb key "espadas1" then Some "Ace of Swords (Highest card)"
  else if String.eqb key "bastos1" then Some "Ace of Clubs (2nd highest)"
  else if String.eqb key "espadas7" then Some "Seven of Swords (3rd highest)"
  else if String.eqb key "oros7" then Some "Seven of Gold (4th highest)"
  else None.

(** The text that [showCardExplanation] passes to [setCardExplanation]. *)
Definition cardExplanationText (card : Card) : string :=
  let rankIndex := getCardRank card in
  let explanation := template [spanishName (value card); " de "; suitName (suit card)] in
  (* Check if it's a special card *)
  let cardKey := template [suit card; showNumber (value card)] in
  match SPECIAL_CARDS cardKey with
  | Some special => template [explanation; " - "; special]
  | None =>
      (* Generic ranking explanation *)
      let explanation :=
        template [explanation; " - Ranked #"; showNumber (rankIndex + 1);
                  " out of 40 cards"] in
      if value card =? 3 then template [explanation; ". All 3s are strong cards in Truco."]
      else if value card =? 2 then template [explanation; ". 2s are strong middle-tier cards."]
      else explanation
  end.

(** Whether a text occurs inside another. *)
Fixpoint contains (needle hay : string) : bool :=
  String.prefix needle hay
  || match hay with
     | EmptyString => false
     | String _ rest => contains needle rest
     end.

(** What the explanation of a deck card holds: its Spanish name first,
    then the special description for a rank below 4 and the position in
    the ranking otherwise. *)
Definition explanation_checked (card : Card) : bool :=
  let text := cardExplanationText card in
  let key := template [suit card; showNumber (value card)] in
  String.prefix (template [spanishName (value card); " de "; suitName (suit card); " - "]) text
  && negb (contains "undefined" text)
  && (if getCardRank card <? 4
      then match SPECIAL_CARDS key with
           | Some special => contains special text && negb (contains "Ranked" text)
           | None => false
           end
      else match SPECIAL_CARDS key with
           | Some _ => false
           | None => contains (template ["Ranked #"; showNumber (getCardRank card + 1);
                                         " out of 40 cards"]) text
           end).


(* ================================================================== *)
(** * Part II: properties *)
(* ================================================================== *)

(** ** Facts about the array helpers *)

Section ArrayFacts.
Context {A : Type}.

Lemma findIndex_from_none (p : A -> bool) l i :
  (forall x, In x l -> p x = false) -> findIndex_from p l i = -1.
Proof.
  revert i; induction l as [|x t IH]; intros i H; simpl; [reflexivity|].
  rewrite (H x (or_introl eq_refl)). apply IH. intros y Hy. apply H. now right.
Qed.

Lemma findIndex_from_some (p : A -> bool) l i :
  (exists x, In x l /\ p x = true) ->
  exists n x, nth_error l n = Some x /\ p x = true
              /\ findIndex_from p l i = i + Z.of_nat n
              /\ (forall m y, (m < n)%nat -> nth_error l m = Some y -> p y = false).
Proof.
  revert i; induction l as [|x t IH]; intros i [y [Hy Hp]]; [destruct Hy|].
  simpl. destruct (p x) eqn:Hx.
  - exists 0%nat, x. split; [reflexivity|]. split; [assumption|].
    split; [simpl; lia|]. intros m z Hm; lia.
  - destruct Hy as [->|Hy]; [congruence|].
    destruct (IH (i + 1) (ex_intro _ y (conj Hy Hp))) as (n & z & Hn & Hz & Hi & Hlt).
    exists (S n), z. split; [exact Hn|]. split; [assumption|].
    split; [rewrite Hi; lia|].
    intros [|m] w Hm Hw; simpl in Hw.
    + congruence.
    + apply (Hlt m w); [lia|assumption].
Qed.

Lemma findIndex_range (p : A -> bool) l :
  findIndex p l = -1 \/ 0 <= findIndex p l < Z.of_nat (List.length l).
Proof.
  unfold findIndex.
  destruct (existsb p l) eqn:E.
  - right. apply existsb_exists in E.
    destruct (findIndex_from_some p l 0 E) as (n & x & Hn & _ & -> & _).
    assert (n < List.length l)%nat by (apply nth_error_Some; congruence). lia.
  - left. apply findIndex_from_none. intros x Hx.
    destruct (p x) eqn:Hp; [|reflexivity].
    assert (existsb p l = true) by (apply existsb_exists; eauto). congruence.
Qed.
End ArrayFacts.

(** ** Card equality and membership *)

Lemma card_eqb_eq a b : card_eqb a b = true <-> a = b.
Proof.
  unfold card_eqb. destruct a as [sa va], b as [sb vb]; simpl.
  rewrite andb_true_iff, String.eqb_eq, Z.eqb_eq.
  split; [intros [-> ->]; reflexivity | intros H; inversion H; auto].
Qed.

Lemma card_eqb_refl a : card_eqb a a = true.
Proof. now apply card_eqb_eq. Qed.

Lemma card_eqb_neq a b : card_eqb a b = false <-> a <> b.
Proof.
  rewrite <- card_eqb_eq. destruct (card_eqb a b); split; congruence.
Qed.

Lemma card_eq_dec (a b : Card) : {a = b} + {a <> b}.
Proof.
  destruct (card_eqb a b) eqn:E; [left; now apply card_eqb_eq | right; now apply card_eqb_neq].
Defined.

Lemma mem_In c l : mem c l = true <-> In c l.
Proof.
  unfold mem. rewrite existsb_exists. split.
  - intros [x [Hx E]]. apply card_eqb_eq in E. now subst.
  - intros H. exists c. split; [assumption | apply card_eqb_refl].
Qed.

Lemma forallb_In {B} (p : B -> bool) l : forallb p l = true -> forall x, In x l -> p x = true.
Proof. intros H x Hx. now apply (proj1 (forallb_forall p l) H). Qed.

Lemma getCardRank_test card rankedCard :
  (String.eqb (suit rankedCard) (suit card) && (value rankedCard =? value card))
  = card_eqb rankedCard card.
Proof. reflexivity. Qed.

Lemma getCardRank_eq c : getCardRank c = findIndex (fun r => card_eqb r c) CARD_RANKING.
Proof. reflexivity. Qed.

(** The deck and the ranking table hold the same cards. *)
Lemma deck_ranking_same c : In c createDeck <-> In c CARD_RANKING.
Proof.
  split; intros H.
  - apply mem_In.
    exact (forallb_In (fun x => mem x CARD_RANKING) createDeck eq_refl c H).
  - apply mem_In.
    exact (forallb_In (fun x => mem x createDeck) CARD_RANKING eq_refl c H).
Qed.

Lemma getCardRank_in_deck c : In c createDeck -> 0 <= getCardRank c <= 39.
Proof.
  intros H. apply deck_ranking_same in H.
  destruct (findIndex_range (fun r => card_eqb r c) CARD_RANKING) as [E|E].
  - exfalso. unfold findIndex in E.
    destruct (findIndex_from_some (fun r => card_eqb r c) CARD_RANKING 0)
      as (n & x & _ & _ & E' & _).
    + exists c. split; [assumption | apply card_eqb_refl].
    + rewrite E' in E. lia.
  - rewrite getCardRank_eq. change (Z.of_nat (List.length CARD_RANKING)) with 40 in E. lia.
Qed.

Lemma getCardRank_not_in_deck c : ~ In c createDeck -> getCardRank c = -1.
Proof.
  intros H. unfold getCardRank, findIndex. apply findIndex_from_none.
  intros x Hx. rewrite getCardRank_test. apply card_eqb_neq. intros ->.
  apply H. now apply deck_ranking_same.
Qed.

(** The card found at the rank of a deck card is that card. *)
Lemma getCardRank_index c :
  In c createDeck -> index CARD_RANKING (getCardRank c) = Some c.
Proof.
  intros H. apply deck_ranking_same in H.
  rewrite getCardRank_eq. unfold findIndex.
  destruct (findIndex_from_some (fun r => card_eqb r c) CARD_RANKING 0)
    as (n & x & Hn & Hx & E & _).
  { exists c. split; [assumption | apply card_eqb_refl]. }
  apply card_eqb_eq in Hx. subst x.
  rewrite E. unfold index.
  destruct (0 + Z.of_nat n <? 0) eqn:L; [apply Z.ltb_lt in L; lia|].
  replace (Z.to_nat (0 + Z.of_nat n)) with n by lia. exact Hn.
Qed.

Lemma getCardRank_inj a b :
  In a createDeck -> In b createDeck -> getCardRank a = getCardRank b -> a = b.
Proof.
  intros Ha Hb E.
  pose proof (getCardRank_index a Ha) as Ia.
  pose proof (getCardRank_index b Hb) as Ib.
  rewrite E in Ia. congruence.
Qed.

Lemma compareCards_cases a b :
  (compareCards a b = 1 /\ getCardRank a < getCardRank b)
  \/ (compareCards a b = -1 /\ getCardRank b < getCardRank a)
  \/ (compareCards a b = 0 /\ getCardRank a = getCardRank b).
Proof.
  unfold compareCards.
  destruct (getCardRank a <? getCardRank b) eqn:L.
  - left. apply Z.ltb_lt in L. auto.
  - apply Z.ltb_ge in L.
    destruct (getCardRank a >? getCardRank b) eqn:G.
    + right; left. apply Z.gtb_lt in G. auto.
    + right; right. rewrite Z.gtb_ltb in G. apply Z.ltb_ge in G. split; [reflexivity|lia].
Qed.

(** ** C1: the ranking table *)

Lemma nodupb_NoDup l : nodupb l = true -> NoDup l.
Proof.
  induction l as [|x t IH]; simpl; intros H; constructor.
  - apply andb_true_iff in H as [H _]. intros Hin. apply mem_In in Hin.
    rewrite Hin in H. discriminate.
  - apply IH. now apply andb_true_iff in H as [_ H].
Qed.

(** C1. The ranking table lists, strongest first, espadas-1, bastos-1,
    espadas-7, oros-7, the 3s, the 2s, oros-1, copas-1, the 12s, the 11s,
    the 10s, copas-7, bastos-7, the 6s, the 5s and the 4s (each group in
    the suit order espadas, bastos, oros, copas); it has 40 entries
    without duplicates, one for each suit and value of the deck and no
    other; and [getCardRank] is a bijection from the deck onto the
    integers 0..39. *)
Theorem card_ranking_bijection :
  CARD_RANKING =
    [mkCard "espadas" 1; mkCard "bastos" 1; mkCard "espadas" 7; mkCard "oros" 7]
    ++ fourOf 3 ++ fourOf 2
    ++ [mkCard "oros" 1; mkCard "copas" 1]
    ++ fourOf 12 ++ fourOf 11 ++ fourOf 10
    ++ [mkCard "copas" 7; mkCard "bastos" 7]
    ++ fourOf 6 ++ fourOf 5 ++ fourOf 4
  /\ List.length CARD_RANKING = 40%nat
  /\ NoDup CARD_RANKING
  /\ (forall s v, In s SUITS -> In v CARD_VALUES -> In (mkCard s v) CARD_RANKING)
  /\ (forall c, In c CARD_RANKING -> In (suit c) SUITS /\ In (value c) CARD_VALUES)
  /\ List.length createDeck = 40%nat
  /\ NoDup createDeck
  /\ (forall c, In c createDeck -> 0 <= getCardRank c <= 39)
  /\ (forall a b, In a createDeck -> In b createDeck ->
                  getCardRank a = getCardRank b -> a = b)
  /\ (forall i, 0 <= i <= 39 -> exists c, In c createDeck /\ getCardRank c = i).
Proof.
  split; [reflexivity|].
  split; [reflexivity|].
  split; [apply nodupb_NoDup; reflexivity|].
  split.
  { intros s v Hs Hv. apply deck_ranking_same. unfold createDeck.
    apply in_flat_map. exists s. split; [assumption|]. now apply in_map. }
  split.
  { intros c Hc. apply deck_ranking_same in Hc. unfold createDeck in Hc.
    apply in_flat_map in Hc as [s [Hs Hc]]. apply in_map_iff in Hc as [v [<- Hv]].
    simpl. auto. }
  split; [reflexivity|].
  split; [apply nodupb_NoDup; reflexivity|].
  split; [exact getCardRank_in_deck|].
  split; [exact getCardRank_inj|].
  intros i Hi.
  destruct (nth_error CARD_RANKING (Z.to_nat i)) as [c|] eqn:E.
  - assert (Hc : In c createDeck).
    { apply deck_ranking_same. eapply nth_error_In; eauto. }
    exists c. split; [assumption|].
    pose proof (getCardRank_index c Hc) as I.
    pose proof (getCardRank_in_deck c Hc) as R.
    unfold index in I. destruct (getCardRank c <? 0) eqn:L; [discriminate|].
    assert (N : NoDup CARD_RANKING) by (apply nodupb_NoDup; reflexivity).
    assert (Hlt : (Z.to_nat (getCardRank c) < List.length CARD_RANKING)%nat).
    { apply nth_error_Some. congruence. }
    pose proof (proj1 (NoDup_nth_error CARD_RANKING) N
                  (Z.to_nat (getCardRank c)) (Z.to_nat i) Hlt) as Q.
    rewrite I, E in Q. specialize (Q eq_refl). lia.
  - exfalso. apply nth_error_None in E. change (List.length CARD_RANKING) with 40%nat in E. lia.
Qed.

Lemma card_ranking_bijection_witness :
  In (mkCard "oros" 7) CARD_RANKING /\ 0 <= getCardRank (mkCard "oros" 7) <= 39.
Proof.
  destruct card_ranking_bijection as (_ & _ & _ & Hin & _ & _ & _ & Hr & _).
  split.
  - apply Hin; simpl; auto 12.
  - apply Hr. simpl. auto 40.
Defined.

(** ** C9: the comparator on the deck *)

(** C9. Comparing a deck card with itself gives a tie (0); for two
    distinct deck cards the first wins (1) exactly when the second loses
    seen from the other side (-1), the winner being the card of lower
    rank index, and no tie occurs. *)
Theorem compareCards_deck_antisymmetric :
  forall a b, In a createDeck -> In b createDeck ->
    compareCards a a = 0
    /\ (a <> b ->
        (compareCards a b = 1 <-> compareCards b a = -1)
        /\ (compareCards a b = 1 <-> getCardRank a < getCardRank b)
        /\ (compareCards a b = -1 <-> getCardRank b < getCardRank a)
        /\ compareCards a b <> 0).
Proof.
  intros a b Ha Hb. split.
  - destruct (compareCards_cases a a) as [[_ H]|[[_ H]|[H _]]]; [lia|lia|exact H].
  - intros Hab.
    assert (Hr : getCardRank a <> getCardRank b).
    { intros E. apply Hab. now apply getCardRank_inj. }
    destruct (compareCards_cases a b) as [[E1 L1]|[[E1 L1]|[E1 L1]]];
      destruct (compareCards_cases b a) as [[E2 L2]|[[E2 L2]|[E2 L2]]];
      try lia; rewrite E1, E2; repeat split; intros; try lia; try discriminate.
Qed.

Lemma compareCards_deck_antisymmetric_witness :
  compareCards (mkCard "espadas" 1) (mkCard "espadas" 1) = 0
  /\ (compareCards (mkCard "espadas" 1) (mkCard "bastos" 1) = 1
      <-> compareCards (mkCard "bastos" 1) (mkCard "espadas" 1) = -1).
Proof.
  assert (Ha : In (mkCard "espadas" 1) createDeck) by (simpl; auto 40).
  assert (Hb : In (mkCard "bastos" 1) createDeck) by (simpl; auto 40).
  destruct (compareCards_deck_antisymmetric _ _ Ha Hb) as [H0 H1].
  split; [exact H0|].
  apply H1. discriminate.
Defined.

(** ** C10: cards outside the deck *)

(** C10. A card that is not one of the 40 deck cards has rank -1, and
    [compareCards] reports it as the winner against every deck card, on
    either side of the comparison; a rank in 0..39 is returned exactly
    for the deck cards. *)
Theorem getCardRank_outside_deck :
  forall c, ~ In c createDeck ->
    getCardRank c = -1
    /\ (forall d, In d createDeck -> compareCards c d = 1 /\ compareCards d c = -1)
    /\ (forall x, 0 <= getCardRank x <= 39 <-> In x createDeck).
Proof.
  intros c Hc.
  pose proof (getCardRank_not_in_deck c Hc) as E.
  split; [exact E|]. split.
  - intros d Hd. pose proof (getCardRank_in_deck d Hd) as R.
    destruct (compareCards_cases c d) as [[E1 L1]|[[E1 L1]|[E1 L1]]];
      destruct (compareCards_cases d c) as [[E2 L2]|[[E2 L2]|[E2 L2]]];
      try lia; auto.
  - intros x. split.
    + intros R. destruct (in_dec card_eq_dec x createDeck) as [I|I]; [assumption|].
      rewrite (getCardRank_not_in_deck x I) in R. lia.
    + apply getCardRank_in_deck.
Qed.

Lemma getCardRank_outside_deck_witness :
  getCardRank (mkCard "oros" 8) = -1
  /\ compareCards (mkCard "oros" 8) (mkCard "espadas" 1) = 1.
Proof.
  assert (H : ~ In (mkCard "oros" 8) createDeck).
  { intros I. apply mem_In in I. vm_compute in I. discriminate. }
  destruct (getCardRank_outside_deck _ H) as (E & W & _).
  split; [exact E|].
  apply W. simpl. auto 40.
Defined.

(** ** C5: Envido points *)

Lemma envido_all_hands :
  forallb (fun a => forallb (fun b => forallb (fun c =>
     implb (distinct3 a b c) (envido_agrees a b c)) createDeck) createDeck) createDeck = true.
Proof. vm_compute. reflexivity. Qed.

(** C5. For three distinct deck cards the Envido points that
    [calculateEnvidoPoints] stores, for the player's and for the
    opponent's hand alike, are the score worded in the specification:
    20 plus the two highest substituted values of a suit held at least
    twice, the highest substituted value when no suit is held twice.
    They lie between 0 and 33.  The three hands of the specification
    score 29, 20 and 5. *)
Theorem calculateEnvidoPoints_spec :
  (forall playerCards opponentCards w,
      fst (calculateEnvidoPoints playerCards opponentCards w) = Return tt
      /\ envidoPoints (store (snd (calculateEnvidoPoints playerCards opponentCards w)))
         = mkSides (envidoHighest playerCards) (envidoHighest opponentCards))
  /\ (forall a b c,
         In a createDeck -> In b createDeck -> In c createDeck -> NoDup [a; b; c] ->
         envidoHighest [a; b; c] = envido_spec [a; b; c]
         /\ 0 <= envidoHighest [a; b; c] <= 33)
  /\ envidoHighest [mkCard "espadas" 3; mkCard "espadas" 6; mkCard "bastos" 2] = 29
  /\ envidoHighest [mkCard "oros" 10; mkCard "oros" 11; mkCard "copas" 4] = 20
  /\ envidoHighest [mkCard "espadas" 5; mkCard "bastos" 2; mkCard "oros" 10] = 5.
Proof.
  split; [intros; split; reflexivity|].
  split; [|repeat split; reflexivity].
  intros a b c Ha Hb Hc N.
  pose proof (forallb_In _ _ envido_all_hands a Ha) as H1. cbv beta in H1.
  pose proof (forallb_In _ _ H1 b Hb) as H2. cbv beta in H2.
  pose proof (forallb_In _ _ H2 c Hc) as H3. cbv beta in H3.
  assert (D : distinct3 a b c = true).
  { unfold distinct3.
    inversion N as [|x l Nab N1]; subst. inversion N1 as [|y l' Nbc N2]; subst.
    rewrite !andb_true_iff, !negb_true_iff. repeat split; apply card_eqb_neq.
    - intros ->. apply Nab. now left.
    - intros ->. apply Nab. right. now left.
    - intros ->. apply Nbc. now left. }
  rewrite D in H3. simpl implb in H3. unfold envido_agrees in H3.
  apply andb_true_iff in H3 as [H3 Hle]. apply andb_true_iff in H3 as [Heq Hge].
  apply Z.eqb_eq in Heq. apply Z.leb_le in Hge. apply Z.leb_le in Hle. auto.
Qed.

Lemma calculateEnvidoPoints_spec_witness :
  envidoHighest [mkCard "copas" 7; mkCard "copas" 6; mkCard "oros" 1] = 33.
Proof.
  destruct calculateEnvidoPoints_spec as (_ & H & _).
  assert (Ha : In (mkCard "copas" 7) createDeck) by (simpl; auto 40).
  assert (Hb : In (mkCard "copas" 6) createDeck) by (simpl; auto 40).
  assert (Hc : In (mkCard "oros" 1) createDeck) by (simpl; auto 40).
  assert (N : NoDup [mkCard "copas" 7; mkCard "copas" 6; mkCard "oros" 1]).
  { apply nodupb_NoDup. reflexivity. }
  destruct (H _ _ _ Ha Hb Hc N) as [E _].
  rewrite E. reflexivity.
Defined.

(** ** C2: the opponent's choice *)

Section SortFacts.
Context {A : Type} (f : A -> Z).

Let cmp : A -> A -> Z := fun a b => f a - f b.
Let ascending : A -> A -> Prop := fun a b => f a <= f b.
Let descending : A -> A -> Prop := fun a b => f b <= f a.

Lemma sort_insert_perm x l : Permutation (sort_insert cmp x l) (x :: l).
Proof.
  induction l as [|y t IH]; simpl; [reflexivity|].
  destruct (cmp x y <=? 0); [reflexivity|].
  rewrite IH. apply perm_swap.
Qed.

Lemma sort_perm l : Permutation (sort cmp l) l.
Proof.
  induction l as [|x t IH]; simpl; [reflexivity|].
  fold (sort cmp t). rewrite sort_insert_perm. now constructor.
Qed.

Lemma sort_insert_sorted x l :
  StronglySorted ascending l -> StronglySorted ascending (sort_insert cmp x l).
Proof.
  induction l as [|y t IH]; intros S; simpl.
  - constructor; constructor.
  - apply StronglySorted_inv in S as [St Fy].
    destruct (cmp x y <=? 0) eqn:E.
    + apply Z.leb_le in E. unfold cmp in E.
      constructor; [constructor; assumption|].
      constructor; [unfold ascending; lia|].
      rewrite Forall_forall in *. intros z Hz. specialize (Fy z Hz).
      unfold ascending in *. lia.
    + apply Z.leb_gt in E. unfold cmp in E.
      constructor; [apply IH; assumption|].
      rewrite Forall_forall in *. intros z Hz.
      apply (Permutation_in _ (sort_insert_perm x t)) in Hz.
      destruct Hz as [<-|Hz]; [unfold ascending; lia | apply Fy; assumption].
Qed.

Lemma sort_sorted l : StronglySorted ascending (sort cmp l).
Proof.
  induction l as [|x t IH]; simpl; [constructor|].
  apply sort_insert_sorted. exact IH.
Qed.

Lemma sorted_snoc l x :
  StronglySorted descending l -> Forall (fun y => descending y x) l ->
  StronglySorted descending (l ++ [x]).
Proof.
  induction l as [|y t IH]; intros S F; simpl.
  - constructor; constructor.
  - apply StronglySorted_inv in S as [St Fy]. inversion F as [|? ? Hyx Ft]; subst.
    constructor; [apply IH; assumption|].
    apply Forall_app. split; [assumption | constructor; [assumption|constructor]].
Qed.

Lemma sorted_rev l : StronglySorted ascending l -> StronglySorted descending (rev l).
Proof.
  induction l as [|x t IH]; intros S; simpl; [constructor|].
  apply StronglySorted_inv in S as [St Fx].
  apply sorted_snoc; [apply IH; assumption|].
  rewrite Forall_forall in *. intros y Hy. apply in_rev in Hy.
  apply Fx. assumption.
Qed.

(** In a list in descending order, the first element that passes a
    test has the greatest key among those that pass. *)
Lemma find_descending (p : A -> bool) l w :
  StronglySorted descending l -> find p l = Some w ->
  forall c, In c l -> p c = true -> f c <= f w.
Proof.
  induction l as [|x t IH]; intros S Fw c Hc Pc; [destruct Hc|].
  apply StronglySorted_inv in S as [St Fx]. simpl in Fw.
  destruct (p x) eqn:Px.
  - inversion Fw; subst w. destruct Hc as [<-|Hc]; [lia|].
    rewrite Forall_forall in Fx. apply Fx. assumption.
  - destruct Hc as [<-|Hc]; [congruence|]. eapply IH; eauto.
Qed.

(** The last element of the reversed sorted list is the head of the
    sorted list, of least key. *)
Lemma last_of_rev (l : list A) :
  index (rev l) (Z.of_nat (List.length (rev l)) - 1) = hd_error l.
Proof.
  destruct l as [|x t]; [reflexivity|].
  unfold index. rewrite length_rev. simpl List.length.
  destruct (Z.of_nat (S (List.length t)) - 1 <? 0) eqn:E; [apply Z.ltb_lt in E; lia|].
  replace (Z.to_nat (Z.of_nat (S (List.length t)) - 1)) with (List.length (rev t))
    by (rewrite length_rev; lia).
  simpl rev. rewrite nth_error_app2 by lia. rewrite Nat.sub_diag. reflexivity.
Qed.

Lemma hd_sorted_least l x :
  StronglySorted ascending l -> hd_error l = Some x ->
  forall c, In c l -> f x <= f c.
Proof.
  destruct l as [|y t]; intros S H c Hc; [discriminate|].
  inversion H; subst y. apply StronglySorted_inv in S as [_ Fx].
  destruct Hc as [<-|Hc]; [lia|]. rewrite Forall_forall in Fx. now apply Fx.
Qed.
End SortFacts.

Lemma in_sortedHandOf c hand : In c (sortedHandOf hand) <-> In c hand.
Proof.
  unfold sortedHandOf. rewrite <- in_rev. split; intros H.
  - eapply Permutation_in; [apply sort_perm | exact H].
  - eapply Permutation_in; [apply Permutation_sym, sort_perm | exact H].
Qed.

Lemma beats_iff c t : (compareCards c t >? 0) = true <-> compareCards c t = 1.
Proof.
  destruct (compareCards_cases c t) as [[E _]|[[E _]|[E _]]]; rewrite E;
    split; intros H; try reflexivity; try discriminate.
Qed.

(** When some card of the hand beats the card on the table, the opponent
    plays the weakest card that does. *)
Lemma chooseCard_weakest_winner hand t :
  (exists c, In c hand /\ compareCards c t = 1) ->
  exists w, chooseCard hand t = Some w /\ In w hand /\ compareCards w t = 1
            /\ forall c, In c hand -> compareCards c t = 1 -> getCardRank c <= getCardRank w.
Proof.
  intros [c0 [H0 B0]]. unfold chooseCard.
  destruct (find (fun card => compareCards card t >? 0) (sortedHandOf hand)) as [w|] eqn:F.
  - exists w. split; [reflexivity|].
    pose proof (find_some _ _ F) as [Hw Bw].
    split; [now apply in_sortedHandOf|]. split; [now apply beats_iff|].
    intros c Hc Bc.
    apply (find_descending getCardRank (fun card => compareCards card t >? 0)
             (sortedHandOf hand) w); auto.
    + apply sorted_rev, sort_sorted.
    + now apply in_sortedHandOf.
    + now apply beats_iff.
  - exfalso. pose proof (find_none _ _ F c0 (proj2 (in_sortedHandOf c0 hand) H0)) as N.
    cbv beta in N. apply beats_iff in B0. congruence.
Qed.

(** When no card of the hand beats the card on the table, the opponent
    plays the card of least rank index: the strongest card of the hand. *)
Lemma chooseCard_strongest_when_losing hand t :
  hand <> [] -> (forall c, In c hand -> compareCards c t <> 1) ->
  exists w, chooseCard hand t = Some w /\ In w hand
            /\ forall c, In c hand -> getCardRank w <= getCardRank c.
Proof.
  intros Hne Hno. unfold chooseCard.
  destruct (find (fun card => compareCards card t >? 0) (sortedHandOf hand)) as [w|] eqn:F.
  - exfalso. pose proof (find_some _ _ F) as [Hw Bw].
    apply (Hno w); [now apply in_sortedHandOf | now apply beats_iff].
  - unfold sortedHandOf. rewrite last_of_rev.
    destruct (sort (fun a b => getCardRank a - getCardRank b) hand) as [|x l] eqn:E.
    + exfalso. apply Hne.
      apply Permutation_nil. rewrite <- E. apply (sort_perm getCardRank).
    + exists x. split; [reflexivity|].
      assert (P : Permutation (x :: l) hand) by (rewrite <- E; apply (sort_perm getCardRank)).
      split; [eapply Permutation_in; [exact P | now left]|].
      intros c Hc.
      apply (hd_sorted_least getCardRank (x :: l) x); [|reflexivity|].
      * rewrite <- E. apply sort_sorted.
      * eapply Permutation_in; [apply Permutation_sym; exact P | exact Hc].
Qed.

(** C2 (failing case). With espadas-1 on the table no card of the hand
    [oros-6, copas-4] can win; the opponent then plays oros-6, the
    stronger of the two, and keeps copas-4, the weakest card of the deck.
    The example of the specification, a winning one, comes out as
    stated: against copas-4 the hand [espadas-1, oros-6, copas-2] plays
    oros-6. *)
Theorem playOpponentCard_plays_strongest_when_losing :
  let s := with_opponentHand [mkCard "oros" 6; mkCard "copas" 4]
             (with_roundCards (mkSides (Some (mkCard "espadas" 1)) None) idleStore) in
  let r := playOpponentCard s [] (quiet s) in
  fst r = Return tt
  /\ opponent (roundCards (store (snd r))) = Some (mkCard "oros" 6)
  /\ opponentHand (store (snd r)) = [mkCard "copas" 4]
  /\ compareCards (mkCard "oros" 6) (mkCard "espadas" 1) = -1
  /\ compareCards (mkCard "copas" 4) (mkCard "espadas" 1) = -1
  /\ getCardRank (mkCard "oros" 6) = 30
  /\ getCardRank (mkCard "copas" 4) = 39
  /\ chooseCard [mkCard "espadas" 1; mkCard "oros" 6; mkCard "copas" 2] (mkCard "copas" 4)
     = Some (mkCard "oros" 6).
Proof. vm_compute. repeat split; reflexivity. Qed.

(** ** Running handlers and timers *)

Ltac run_handler :=
  cbv [bind ret throw modify setTimeout
       setDeck setPlayerHand setOpponentHand setPlayerScore setOpponentScore
       setRoundCards setRounds setCurrentRound setGameState setTruco setTrucoValue
       setMessage setEnvido setEnvidoPoints setRoundWins
       updPlayerScore updOpponentScore updRoundCards updCurrentRound];
  cbn [fst snd now store timers].

Ltac run_timers :=
  cbn [settle step popEarliest timers app due callback closure fire fst snd now store].

Ltac read_store :=
  cbn [deck playerHand opponentHand playerScore opponentScore roundCards rounds
       currentRound gameState truco trucoValue message envido envidoPoints roundWins
       with_deck with_playerHand with_opponentHand with_playerScore with_opponentScore
       with_roundCards with_rounds with_currentRound with_gameState with_truco
       with_trucoValue with_message with_envido with_envidoPoints with_roundWins
       fst snd now store timers].

(** A hand that has just been dealt: nothing is called, nothing is
    recorded, the first trick is open and the Envido points of both hands
    are known; the scores are those of the match so far. *)
Lemma startNewHand_fresh newDeck w :
  let s := store (snd (startNewHand newDeck w)) in
  fst (startNewHand newDeck w) = Return tt
  /\ playerHand s = firstn 3 newDeck
  /\ opponentHand s = firstn 3 (skipn 3 newDeck)
  /\ deck s = skipn 6 newDeck
  /\ (truco s, trucoValue s, envido s) = (false, 1, false)
  /\ (currentRound s, gameState s, roundCards s) = (1, "playing", mkSides None None)
  /\ tricksRecorded s
  /\ envidoEnabled s = true
  /\ envidoPoints s = mkSides (envidoHighest (firstn 3 newDeck))
                              (envidoHighest (firstn 3 (skipn 3 newDeck)))
  /\ (playerScore s, opponentScore s) = (playerScore (store w), opponentScore (store w))
  /\ timers (snd (startNewHand newDeck w)) = timers w.
Proof.
  unfold startNewHand, calculateEnvidoPoints, tricksRecorded.
  cbn [bind modify setDeck setPlayerHand setOpponentHand setRounds setCurrentRound
       setGameState setTruco setTrucoValue setEnvido setRoundCards setRoundWins
       setMessage setEnvidoPoints fst snd now store timers].
  read_store. repeat split; try reflexivity. constructor.
Qed.

Lemma evaluateRound_run s pc oc w :
  player (roundCards s) = Some pc ->
  evaluateRound s oc w =
  (Return tt,
   mkWorld (now w)
     (with_roundWins (snd (fst (trickOutcome s pc oc)))
        (with_rounds (rounds s ++ [mkRound pc oc (fst (fst (trickOutcome s pc oc)))])
           (with_message (snd (trickOutcome s pc oc)) (store w))))
     (timers w ++ [mkTimer (now w + 1500) s (ClearRound (snd (fst (trickOutcome s pc oc))))])).
Proof.
  intros Hpc. unfold evaluateRound. rewrite Hpc.
  destruct (trickOutcome s pc oc) as [[rw nrw] text].
  run_handler. reflexivity.
Qed.

(** What the delayed blocks of [evaluateRound] leave behind. *)
Lemma afterTrick_effect s pc oc t :
  player (roundCards s) = Some pc ->
  let nrw := snd (fst (trickOutcome s pc oc)) in
  let w' := afterTrick s oc t in
  timers w' = []
  /\ rounds (store w') = rounds s ++ [mkRound pc oc (fst (fst (trickOutcome s pc oc)))]
  /\ roundWins (store w') = nrw
  /\ roundCards (store w') = mkSides None None
  /\ playerScore (store w')
     = playerScore s + (if handIsOver s nrw
                        then award "player" (handWinner s nrw) (trucoValue s) else 0)
  /\ gameState (store w')
     = (if handIsOver s nrw
        then if (playerScore s >=? 15) || (opponentScore s >=? 15)
             then "gameEnd" else "roundEnd"
        else "playing")
  /\ currentRound (store w')
     = (if handIsOver s nrw then currentRound s else currentRound s + 1).
Proof.
  intros Hpc nrw w'. subst w'. unfold afterTrick.
  rewrite (evaluateRound_run s pc oc _ Hpc). fold nrw.
  run_timers. unfold clearRound. run_handler.
  unfold handWinner, award.
  destruct (handIsOver s nrw).
  - destruct (player nrw >? opponent nrw); [|destruct (player nrw <? opponent nrw);
      [|destruct (find _ (rounds s)) as [firstWin|];
        [destruct (String.eqb (winner firstWin) "player")|]]];
      run_handler; run_timers; unfold gameEndCheck;
      destruct ((playerScore s >=? 15) || (opponentScore s >=? 15));
      try destruct (playerScore s >=? 15);
      run_handler; read_store; repeat split; try reflexivity; try lia;
      simpl; lia.
  - run_timers. read_store. repeat split; try reflexivity; lia.
Qed.

Lemma afterTrick_opponentScore s pc oc t :
  player (roundCards s) = Some pc ->
  Forall (fun r => In (winner r) ["player"; "opponent"; "tie"]) (rounds s) ->
  let nrw := snd (fst (trickOutcome s pc oc)) in
  opponentScore (store (afterTrick s oc t))
  = opponentScore s + (if handIsOver s nrw
                       then award "opponent" (handWinner s nrw) (trucoValue s) else 0).
Proof.
  intros Hpc Hw nrw. unfold afterTrick.
  rewrite (evaluateRound_run s pc oc _ Hpc). fold nrw.
  run_timers. unfold clearRound. run_handler.
  unfold handWinner, award.
  destruct (handIsOver s nrw).
  - destruct (player nrw >? opponent nrw); [|destruct (player nrw <? opponent nrw);
      [|destruct (find _ (rounds s)) as [firstWin|] eqn:F;
        [destruct (String.eqb (winner firstWin) "player") eqn:E|]]];
      run_handler; run_timers; unfold gameEndCheck;
      destruct ((playerScore s >=? 15) || (opponentScore s >=? 15));
      try destruct (playerScore s >=? 15);
      run_handler; read_store; try (simpl; lia).
    all: apply find_some in F as [Hin Hnt]; rewrite Forall_forall in Hw;
      specialize (Hw firstWin Hin); simpl in Hw;
      destruct Hw as [Q|[Q|[Q|[]]]]; rewrite <- Q in *; try discriminate; simpl; lia.
  - run_timers. read_store. lia.
Qed.

(** ** C3: the winner of a hand *)

Lemma trickWins_snoc side tr x :
  trickWins side (tr ++ [x]) = trickWins side tr + (if String.eqb x side then 1 else 0).
Proof.
  unfold trickWins. rewrite count_occ_app. simpl.
  destruct (string_dec x side) as [->|N].
  - rewrite String.eqb_refl. lia.
  - apply String.eqb_neq in N. rewrite N. lia.
Qed.

Lemma trickOutcome_cases s pc oc :
  let rw := fst (fst (trickOutcome s pc oc)) in
  let nrw := snd (fst (trickOutcome s pc oc)) in
  (rw = "player" /\ nrw = mkSides (player (roundWins s) + 1) (opponent (roundWins s)))
  \/ (rw = "opponent" /\ nrw = mkSides (player (roundWins s)) (opponent (roundWins s) + 1))
  \/ (rw = "tie" /\ nrw = mkSides (player (roundWins s)) (opponent (roundWins s))).
Proof.
  unfold trickOutcome.
  destruct (compareCards pc oc >? 0); [left; split; reflexivity|].
  destruct (compareCards pc oc <? 0); [right; left; split; reflexivity|].
  right; right. split; [reflexivity|]. simpl. destruct (roundWins s); reflexivity.
Qed.

Lemma find_winner_map (l : list Round) :
  find (fun w => negb (String.eqb w "tie")) (map winner l)
  = option_map winner (find (fun r => negb (String.eqb (winner r) "tie")) l).
Proof.
  induction l as [|r l IH]; simpl; [reflexivity|].
  destruct (negb (String.eqb (winner r) "tie")); [reflexivity | exact IH].
Qed.

Lemma find_snoc {A} (p : A -> bool) l x :
  find p (l ++ [x]) = match find p l with
                      | Some y => Some y
                      | None => if p x then Some x else None
                      end.
Proof.
  induction l as [|y l IH]; simpl; [reflexivity|].
  destruct (p y); [reflexivity | exact IH].
Qed.

Lemma all_tied_no_wins tr :
  find (fun w => negb (String.eqb w "tie")) tr = None ->
  trickWins "player" tr = 0 /\ trickWins "opponent" tr = 0.
Proof.
  induction tr as [|x tr IH]; simpl; intros F; [split; reflexivity|].
  destruct (String.eqb x "tie") eqn:E; simpl in F; [|discriminate].
  apply String.eqb_eq in E. subst x. destruct (IH F) as [P O].
  unfold trickWins in *. simpl. split; assumption.
Qed.

Lemma handIsOver_claimed s nrw :
  player nrw >= 2 \/ opponent nrw >= 2 \/ currentRound s >= 3 -> handIsOver s nrw = true.
Proof.
  intros H. unfold handIsOver. rewrite !orb_true_iff, !Z.geb_le. intuition lia.
Qed.

(** C3. Let a trick be resolved in a render that holds the player's card
    and whose round wins count the recorded tricks.  If the hand is then
    complete (a side has two trick wins, or this was the third trick) the
    hand winner is the side with more trick wins, on equal wins the side
    that won the first trick that was not tied, in recorded order, and
    nobody if all were tied; the winner's score grows by the Truco value
    and the other score, or both when nobody wins, stays as it was.  For
    the outcomes tie, player, opponent the player wins the hand. *)
Theorem evaluateRound_hand_winner :
  forall s playerCard opponentCard t,
    player (roundCards s) = Some playerCard ->
    tricksRecorded s ->
    let w' := afterTrick s opponentCard t in
    let tricks := map winner (rounds (store w')) in
    player (roundWins (store w')) >= 2 \/ opponent (roundWins (store w')) >= 2
    \/ currentRound s >= 3 ->
    tricksRecorded (store w')
    /\ handWinner s (roundWins (store w')) = handWinner_spec tricks
    /\ playerScore (store w')
       = playerScore s + award "player" (handWinner_spec tricks) (trucoValue s)
    /\ opponentScore (store w')
       = opponentScore s + award "opponent" (handWinner_spec tricks) (trucoValue s)
    /\ handWinner_spec ["tie"; "player"; "opponent"] = "player".
Proof.
  intros s pc oc t Hpc (Hw & Hp & Ho) w' tricks Hover.
  destruct (afterTrick_effect s pc oc t Hpc) as (_ & Hr & Hn & _ & Hps & _).
  pose proof (afterTrick_opponentScore s pc oc t Hpc Hw) as Hos.
  fold w' in Hr, Hn, Hps, Hos. cbv zeta in Hn, Hps, Hos.
  set (rw := fst (fst (trickOutcome s pc oc))) in *.
  set (nrw := snd (fst (trickOutcome s pc oc))) in *.
  assert (Htr : tricks = map winner (rounds s) ++ [rw]).
  { unfold tricks. rewrite Hr, map_app. reflexivity. }
  rewrite Hn in Hover |- *.
  rewrite (handIsOver_claimed s nrw Hover) in Hps, Hos.
  assert (Hcount : player nrw = trickWins "player" tricks
                   /\ opponent nrw = trickWins "opponent" tricks
                   /\ In rw ["player"; "opponent"; "tie"]).
  { rewrite Htr, !trickWins_snoc, <- Hp, <- Ho.
    destruct (trickOutcome_cases s pc oc) as [[E1 E2]|[[E1 E2]|[E1 E2]]];
      fold rw in E1; fold nrw in E2; rewrite E1, E2; simpl; repeat split; auto; lia. }
  destruct Hcount as (Cp & Co & Hrw).
  assert (Hsame : handWinner s nrw = handWinner_spec tricks).
  { unfold handWinner, handWinner_spec. rewrite <- Cp, <- Co.
    destruct (player nrw >? opponent nrw) eqn:G; [reflexivity|].
    destruct (player nrw <? opponent nrw) eqn:L; [reflexivity|].
    assert (Heq : player nrw = opponent nrw).
    { rewrite Z.gtb_ltb in G. apply Z.ltb_ge in G, L. lia. }
    rewrite Htr, find_snoc, find_winner_map.
    destruct (find (fun r => negb (String.eqb (winner r) "tie")) (rounds s))
      as [firstWin|] eqn:F; [reflexivity|]. simpl.
    assert (Z0 : trickWins "player" (map winner (rounds s)) = 0
                 /\ trickWins "opponent" (map winner (rounds s)) = 0).
    { apply all_tied_no_wins. rewrite find_winner_map, F. reflexivity. }
    destruct Z0 as [Zp Zo].
    rewrite Cp, Co, Htr, !trickWins_snoc, Zp, Zo in Heq.
    destruct Hrw as [Q|[Q|[Q|[]]]]; rewrite <- Q in Heq |- *; simpl in Heq |- *;
      try lia; reflexivity. }
  split.
  { repeat split.
    - rewrite Hr. apply Forall_app. split; [assumption|].
      constructor; [exact Hrw | constructor].
    - rewrite Hn. exact Cp.
    - rewrite Hn. exact Co. }
  split; [exact Hsame|]. rewrite <- Hsame.
  split; [exact Hps|]. split; [exact Hos | reflexivity].
Qed.

Lemma evaluateRound_hand_winner_witness :
  let s := with_playerScore 3 (with_opponentScore 4 (with_trucoValue 2
             (with_currentRound 3 (with_roundWins (mkSides 1 0)
               (with_rounds [mkRound (mkCard "oros" 5) (mkCard "oros" 5) "tie";
                             mkRound (mkCard "espadas" 1) (mkCard "copas" 4) "player"]
                 (with_roundCards (mkSides (Some (mkCard "copas" 5)) None) idleStore)))))) in
  let w' := afterTrick s (mkCard "espadas" 7) 0 in
  map winner (rounds (store w')) = ["tie"; "player"; "opponent"]
  /\ playerScore (store w') = 5 /\ opponentScore (store w') = 4.
Proof.
  intros s w'.
  assert (Hpc : player (roundCards s) = Some (mkCard "copas" 5)) by reflexivity.
  assert (Hrec : tricksRecorded s).
  { split; [|split; reflexivity].
    constructor; [simpl; auto|]. constructor; [simpl; auto|]. constructor. }
  assert (Hover : player (roundWins (store w')) >= 2 \/ opponent (roundWins (store w')) >= 2
                  \/ currentRound s >= 3).
  { right; right. simpl. lia. }
  destruct (evaluateRound_hand_winner s _ (mkCard "espadas" 7) 0 Hpc Hrec Hover)
    as (_ & _ & Hp & Ho & _).
  split; [reflexivity|]. split.
  - etransitivity; [exact Hp | reflexivity].
  - etransitivity; [exact Ho | reflexivity].
Defined.

(** ** C4: the end of the match *)

(** C4 (failing case). The player stands at 14 points and wins the hand
    at Truco value 1.  The score becomes 15, yet the check that follows
    reads the scores of the render in which the trick was resolved, 14
    and 0: the match stays in [roundEnd], the message invites to the
    next hand, and the next hand can be dealt. *)
Theorem evaluateRound_game_end_reads_old_score :
  let s := with_playerScore 14
             (with_roundWins (mkSides 1 0)
                (with_currentRound 2
                   (with_rounds [mkRound (mkCard "espadas" 1) (mkCard "copas" 4) "player"]
                      (with_roundCards (mkSides (Some (mkCard "espadas" 7)) None)
                         (with_playerHand [mkCard "espadas" 7; mkCard "oros" 4]
                            (with_opponentHand [mkCard "copas" 5; mkCard "bastos" 6]
                               idleStore)))))) in
  let w' := afterTrick s (mkCard "copas" 5) 0 in
  roundWins (store w') = mkSides 2 0
  /\ playerScore (store w') = 15
  /\ opponentScore (store w') = 0
  /\ gameState (store w') = "roundEnd"
  /\ message (store w') = "Click 'Next Hand' to continue."
  /\ timers w' = []
  /\ (forall newDeck, gameState (store (snd (clickNextHand newDeck w'))) = "playing").
Proof. vm_compute. repeat split; reflexivity. Qed.

(** In general the state after a completed hand is [gameEnd] exactly
    when a score of the resolving render, before the hand's points, had
    reached 15. *)
Lemma game_end_iff_old_score s pc oc t :
  player (roundCards s) = Some pc ->
  handIsOver s (snd (fst (trickOutcome s pc oc))) = true ->
  (gameState (store (afterTrick s oc t)) = "gameEnd"
   <-> (playerScore s >= 15 \/ opponentScore s >= 15)).
Proof.
  intros Hpc Hover.
  destruct (afterTrick_effect s pc oc t Hpc) as (_ & _ & _ & _ & _ & Hg & _).
  cbv zeta in Hg. rewrite Hover in Hg. rewrite Hg.
  destruct ((playerScore s >=? 15) || (opponentScore s >=? 15)) eqn:E.
  - split; [intros _|reflexivity].
    apply orb_true_iff in E. rewrite !Z.geb_le in E. intuition lia.
  - split; [discriminate|]. intros H. exfalso.
    apply orb_false_iff in E as [E1 E2].
    rewrite Z.geb_leb in E1, E2. apply Z.leb_gt in E1, E2. lia.
Qed.

(** ** C6: [playCard] *)

Lemma filter_absent card hand :
  ~ In card hand -> filter (fun c => negb (card_eqb c card)) hand = hand.
Proof.
  induction hand as [|x t IH]; intros H; simpl; [reflexivity|].
  destruct (card_eqb x card) eqn:E.
  - exfalso. apply H. left. now apply card_eqb_eq.
  - simpl. f_equal. apply IH. intros I. apply H. now right.
Qed.

(** C6 (as stated, refuted). In state [playing] the card copas-4, which
    is not in the hand [espadas-1, oros-6, copas-2], is accepted:
    [playCard] returns normally, the card lies in the player's slot and
    the store has changed.  So is espadas-1, played while oros-6 lies in
    the slot: it takes the slot over. *)
Lemma playCard_accepts_invalid_move :
  let s := with_playerHand [mkCard "espadas" 1; mkCard "oros" 6; mkCard "copas" 2] idleStore in
  let r := playCard s (mkCard "copas" 4) (quiet s) in
  let s2 := with_roundCards (mkSides (Some (mkCard "oros" 6)) None)
              (with_playerHand [mkCard "espadas" 1; mkCard "copas" 2] idleStore) in
  let r2 := playCard s2 (mkCard "espadas" 1) (quiet s2) in
  (fst r = Return tt
   /\ player (roundCards (store (snd r))) = Some (mkCard "copas" 4)
   /\ store (snd r) <> s)
  /\ (fst r2 = Return tt
      /\ player (roundCards (store (snd r2))) = Some (mkCard "espadas" 1)
      /\ store (snd r2) <> s2).
Proof. vm_compute. repeat split; try reflexivity; discriminate. Qed.

(** C6 (amended). [playCard] tests the phase and nothing else, and never
    signals an error.  Outside [playing] the call changes nothing.  In
    [playing] every card is accepted: the cards equal to it leave the
    hand (none if it was not there), it is written into the player's
    slot whatever the slot held, the opponent's reply is scheduled, and
    the opponent's hand, the recorded tricks, the round wins, the
    scores and the calls stay as they are.  Invalid moves are kept out
    by the rendering: a click plays a card only when the card is in the
    player's hand and the slot is empty, and is otherwise ignored,
    without an error. *)
Theorem playCard_checks_phase_only :
  forall s card w,
    fst (playCard s card w) = Return tt
    /\ (gameState s <> "playing" -> snd (playCard s card w) = w)
    /\ (gameState s = "playing" ->
        let w' := snd (playCard s card w) in
        playerHand (store w') = filter (fun c => negb (card_eqb c card)) (playerHand s)
        /\ (~ In card (playerHand s) -> playerHand (store w') = playerHand s)
        /\ roundCards (store w') = mkSides (Some card) (opponent (roundCards (store w)))
        /\ timers w'
           = timers w ++ [mkTimer (now w + 1000) s
                            (OpponentTurn (filter (fun c => negb (card_eqb c card))
                                                  (playerHand s)))]
        /\ opponentHand (store w') = opponentHand (store w)
        /\ rounds (store w') = rounds (store w)
        /\ roundWins (store w') = roundWins (store w)
        /\ playerScore (store w') = playerScore (store w)
        /\ opponentScore (store w') = opponentScore (store w)
        /\ (truco (store w'), trucoValue (store w'), envido (store w'))
           = (truco (store w), trucoValue (store w), envido (store w)))
    /\ (mem card (playerHand (store w)) && playable (store w) = false ->
        clickCard card w = (Return tt, w)).
Proof.
  intros s card w. unfold playCard.
  destruct (String.eqb (gameState s) "playing") eqn:G; simpl negb; cbv iota.
  - apply String.eqb_eq in G. run_handler. read_store.
    split; [reflexivity|]. split; [congruence|]. split.
    + intros _. cbv zeta. read_store.
      repeat split; try reflexivity.
      intros H. apply filter_absent. exact H.
    + intros H. unfold clickCard. rewrite H. reflexivity.
  - apply String.eqb_neq in G. run_handler.
    split; [reflexivity|]. split; [reflexivity|]. split; [congruence|].
    intros H. unfold clickCard. rewrite H. reflexivity.
Qed.

Lemma playCard_checks_phase_only_witness :
  snd (playCard (with_gameState "roundEnd" idleStore) (mkCard "oros" 7)
         (quiet (with_gameState "roundEnd" idleStore)))
  = quiet (with_gameState "roundEnd" idleStore)
  /\ playerHand (store (snd (playCard idleStore (mkCard "oros" 7) (quiet idleStore)))) = [].
Proof.
  split.
  - apply (playCard_checks_phase_only (with_gameState "roundEnd" idleStore)).
    simpl. discriminate.
  - destruct (playCard_checks_phase_only idleStore (mkCard "oros" 7) (quiet idleStore))
      as (_ & _ & H & _).
    destruct (H eq_refl) as (_ & Habs & _).
    apply Habs. simpl. tauto.
Defined.

(** ** C7: the Truco level *)

(** The two shapes of the Truco state: nothing called at level 1, or
    called at a level from 2 to 4. *)
Lemma callTruco_invariant s w :
  store w = s ->
  (truco s = false /\ trucoValue s = 1) \/ (truco s = true /\ 2 <= trucoValue s <= 4) ->
  fst (callTruco s w) = Return tt
  /\ truco (store (snd (callTruco s w))) = true
  /\ 2 <= trucoValue (store (snd (callTruco s w))) <= 4
  /\ trucoValue (store (snd (callTruco s w))) = Z.min 4 (trucoValue s + 1).
Proof.
  intros <- [[Ht Hv]|[Ht Hv]]; unfold callTruco; rewrite Ht.
  - run_handler. read_store. repeat split; try reflexivity; lia.
  - destruct (trucoValue (store w) + 1 >? 4) eqn:G; run_handler; read_store.
    + apply Z.gtb_lt in G. repeat split; try reflexivity; try assumption; lia.
    + rewrite Z.gtb_ltb in G. apply Z.ltb_ge in G.
      repeat split; try reflexivity; try assumption; lia.
Qed.

Lemma callTrucoTimes_invariant w n :
  truco (store w) = false -> trucoValue (store w) = 1 ->
  let s := store (callTrucoTimes n w) in
  (truco s = false /\ trucoValue s = 1) \/ (truco s = true /\ 2 <= trucoValue s <= 4).
Proof.
  intros Ht Hv. induction n as [|n IH]; simpl.
  - left. split; assumption.
  - right. destruct (callTruco_invariant _ (callTrucoTimes n w) eq_refl IH) as (_ & T & R & _).
    split; assumption.
Qed.

(** C7 (as stated, refuted). The fourth call is no error: it returns
    like the three before it and leaves the world, message included, as
    it was. *)
Lemma callTruco_fourth_call_returns :
  let w3 := callTrucoTimes 3 (quiet idleStore) in
  trucoValue (store w3) = 4
  /\ callTruco (store w3) w3 = (Return tt, w3)
  /\ ~ (exists e, fst (callTruco (store w3) w3) = Throw e).
Proof.
  vm_compute. repeat split; try reflexivity. intros [e H]. discriminate.
Qed.

(** C7 (amended). From a fresh hand (no Truco called, level 1) three
    calls of [callTruco] raise the level to 2, 3 and 4.  A fourth call
    is ignored: it returns normally, no error is signalled, and nothing
    changes.  No call ever throws, and after any number of calls the
    level is between 1 and 4. *)
Theorem callTruco_levels :
  forall w,
    truco (store w) = false -> trucoValue (store w) = 1 ->
    trucoValue (store (callTrucoTimes 1 w)) = 2
    /\ trucoValue (store (callTrucoTimes 2 w)) = 3
    /\ trucoValue (store (callTrucoTimes 3 w)) = 4
    /\ callTruco (store (callTrucoTimes 3 w)) (callTrucoTimes 3 w)
       = (Return tt, callTrucoTimes 3 w)
    /\ (forall n, fst (callTruco (store (callTrucoTimes n w)) (callTrucoTimes n w))
                  = Return tt)
    /\ (forall n, 1 <= trucoValue (store (callTrucoTimes n w)) <= 4).
Proof.
  intros w Ht Hv.
  assert (H1 : trucoValue (store (callTrucoTimes 1 w)) = 2
               /\ truco (store (callTrucoTimes 1 w)) = true).
  { simpl. unfold callTruco. rewrite Ht. run_handler. read_store. split; reflexivity. }
  destruct H1 as [V1 T1].
  assert (H2 : trucoValue (store (callTrucoTimes 2 w)) = 3
               /\ truco (store (callTrucoTimes 2 w)) = true).
  { destruct (callTruco_invariant _ (callTrucoTimes 1 w) eq_refl) as (_ & T & _ & V).
    - right. split; [exact T1 | lia].
    - split; [|exact T]. etransitivity; [exact V|]. rewrite V1. reflexivity. }
  destruct H2 as [V2 T2].
  assert (H3 : trucoValue (store (callTrucoTimes 3 w)) = 4
               /\ truco (store (callTrucoTimes 3 w)) = true).
  { destruct (callTruco_invariant _ (callTrucoTimes 2 w) eq_refl) as (_ & T & _ & V).
    - right. split; [exact T2 | lia].
    - split; [|exact T]. etransitivity; [exact V|]. rewrite V2. reflexivity. }
  destruct H3 as [V3 T3].
  split; [exact V1|]. split; [exact V2|]. split; [exact V3|]. split.
  { unfold callTruco at 1. rewrite T3, V3. reflexivity. }
  split.
  - intros n.
    exact (proj1 (callTruco_invariant _ (callTrucoTimes n w) eq_refl
                    (callTrucoTimes_invariant w n Ht Hv))).
  - intros n. destruct (callTrucoTimes_invariant w n Ht Hv) as [[_ E]|[_ R]]; lia.
Qed.

Lemma callTruco_levels_witness :
  let dealt := mount createDeck in
  trucoValue (store (callTrucoTimes 3 dealt)) = 4
  /\ 1 <= trucoValue (store (callTrucoTimes 7 dealt)) <= 4.
Proof.
  intros dealt.
  assert (Ht : truco (store dealt) = false) by (vm_compute; reflexivity).
  assert (Hv : trucoValue (store dealt) = 1) by (vm_compute; reflexivity).
  destruct (callTruco_levels dealt Ht Hv) as (_ & _ & V3 & _ & _ & R).
  split; [exact V3 | exact (R 7%nat)].
Defined.

(** ** C8: the Envido call *)

Lemma envidoEnabled_iff s :
  envidoEnabled s = true
  <-> gameState s = "playing" /\ player (roundCards s) = None
      /\ envido s = false /\ currentRound s <= 1.
Proof.
  unfold envidoEnabled, controlsShown.
  rewrite !andb_true_iff, negb_true_iff, orb_false_iff, String.eqb_eq.
  rewrite Z.gtb_ltb, Z.ltb_ge.
  destruct (player (roundCards s)); simpl; intuition congruence.
Qed.

Lemma clickEnvido_rejected w :
  envidoEnabled (store w) = false -> clickEnvido w = (Return tt, w).
Proof. intros H. unfold clickEnvido. rewrite H. reflexivity. Qed.

Lemma clickEnvido_accepted w :
  envidoEnabled (store w) = true ->
  clickEnvido w
  = (Return tt,
     mkWorld (now w) (with_envido true (store w))
       (timers w ++ [mkTimer (now w + 1000) (store w)
                       (EnvidoAnnounce (player (envidoPoints (store w)))
                                       (opponent (envidoPoints (store w))))])).
Proof.
  intros H. unfold clickEnvido. rewrite H.
  apply envidoEnabled_iff in H as (_ & _ & E & _).
  unfold callEnvido. rewrite E. run_handler. reflexivity.
Qed.

(** Nothing that happens while a hand is played takes the Envido flag
    back. *)
Ltac split_cases :=
  repeat match goal with
         | |- context [match ?x with _ => _ end] =>
             lazymatch x with
             | context [match _ with _ => _ end] => fail
             | _ => destruct x eqn:?
             end
         end.

Lemma fire_keeps_envido t w :
  envido (store w) = true -> envido (store (snd (fire t w))) = true.
Proof.
  intros H. unfold fire.
  destruct (callback t);
    unfold playOpponentCard, evaluateRound, clearRound, gameEndCheck,
      envidoAnnounce, envidoResolve;
    run_handler; split_cases; run_handler; read_store; exact H.
Qed.

Lemma handEvent_keeps_envido e w :
  envido (store w) = true -> envido (store (handEvent e w)) = true.
Proof.
  intros H. destruct e; simpl.
  - unfold clickCard, playCard. split_cases; run_handler; read_store; exact H.
  - unfold clickTruco, callTruco. split_cases; run_handler; read_store; exact H.
  - unfold clickEnvido, callEnvido. split_cases; run_handler; read_store;
      first [exact H | assumption | reflexivity].
  - unfold step. destruct (popEarliest (timers w)) as [[t rest]|]; [|exact H].
    pose proof (fire_keeps_envido t (mkWorld (Z.max (now w) (due t)) (store w) rest) H) as K.
    destruct (fire t _) as [o w']. exact K.
Qed.

Lemma handEvents_keep_envido es w :
  envido (store w) = true -> envido (store (handEvents es w)) = true.
Proof.
  revert w. induction es as [|e es IH]; intros w H; simpl; [exact H|].
  apply IH. apply handEvent_keeps_envido. exact H.
Qed.

Lemma envidoResolve_effect pp op w :
  let w' := snd (envidoResolve pp op w) in
  fst (envidoResolve pp op w) = Return tt
  /\ playerScore (store w') = playerScore (store w) + (if pp >? op then 2 else 0)
  /\ opponentScore (store w') = opponentScore (store w) + (if pp >? op then 0 else 2)
  /\ timers w' = timers w
  /\ (truco (store w'), trucoValue (store w'), envido (store w'))
     = (truco (store w), trucoValue (store w), envido (store w))
  /\ (rounds (store w'), roundWins (store w'), currentRound (store w'), gameState (store w'))
     = (rounds (store w), roundWins (store w), currentRound (store w), gameState (store w)).
Proof.
  unfold envidoResolve.
  destruct (pp >? op); [|destruct (pp <? op)]; run_handler; read_store;
    repeat split; try reflexivity; lia.
Qed.

(** *** Handlers that return: their world and their scores *)

Lemma clearRound_over_run s nrw w :
  handIsOver s nrw = true ->
  clearRound s nrw w
  = (Return tt,
     mkWorld (now w) (store (snd (clearRound s nrw w)))
       (timers w ++ [mkTimer (now w + 1500) s GameEndCheck])).
Proof.
  intros Hover. unfold clearRound. run_handler. rewrite Hover.
  destruct (player nrw >? opponent nrw); [|destruct (player nrw <? opponent nrw);
    [|destruct (find _ (rounds s)) as [firstWin|];
      [destruct (String.eqb (winner firstWin) "player")|]]];
    run_handler; reflexivity.
Qed.

Lemma clearRound_over_playerScore s nrw w :
  handIsOver s nrw = true ->
  playerScore (store (snd (clearRound s nrw w)))
  = playerScore (store w) + award "player" (handWinner s nrw) (trucoValue s).
Proof.
  intros Hover. unfold clearRound. run_handler. rewrite Hover.
  unfold handWinner, award.
  destruct (player nrw >? opponent nrw); [|destruct (player nrw <? opponent nrw);
    [|destruct (find _ (rounds s)) as [firstWin|];
      [destruct (String.eqb (winner firstWin) "player")|]]];
    run_handler; read_store; simpl; lia.
Qed.

Lemma clearRound_over_opponentScore s nrw w :
  handIsOver s nrw = true ->
  Forall (fun r => In (winner r) ["player"; "opponent"; "tie"]) (rounds s) ->
  opponentScore (store (snd (clearRound s nrw w)))
  = opponentScore (store w) + award "opponent" (handWinner s nrw) (trucoValue s).
Proof.
  intros Hover Hw. unfold clearRound. run_handler. rewrite Hover.
  unfold handWinner, award.
  destruct (player nrw >? opponent nrw); [|destruct (player nrw <? opponent nrw);
    [|destruct (find _ (rounds s)) as [firstWin|] eqn:F;
      [destruct (String.eqb (winner firstWin) "player") eqn:E|]]];
    run_handler; read_store; try (simpl; lia).
  all: apply find_some in F as [Hin Hnt]; rewrite Forall_forall in Hw;
    specialize (Hw firstWin Hin); simpl in Hw;
    destruct Hw as [Q|[Q|[Q|[]]]]; rewrite <- Q in *; try discriminate; simpl; lia.
Qed.

Lemma gameEndCheck_run s w :
  gameEndCheck s w
  = (Return tt, mkWorld (now w) (store (snd (gameEndCheck s w))) (timers w)).
Proof.
  unfold gameEndCheck.
  destruct ((playerScore s >=? 15) || (opponentScore s >=? 15));
    [destruct (playerScore s >=? 15)|]; run_handler; reflexivity.
Qed.

Lemma gameEndCheck_playerScore s w :
  playerScore (store (snd (gameEndCheck s w))) = playerScore (store w).
Proof.
  unfold gameEndCheck.
  destruct ((playerScore s >=? 15) || (opponentScore s >=? 15));
    [destruct (playerScore s >=? 15)|]; run_handler; reflexivity.
Qed.

Lemma gameEndCheck_opponentScore s w :
  opponentScore (store (snd (gameEndCheck s w))) = opponentScore (store w).
Proof.
  unfold gameEndCheck.
  destruct ((playerScore s >=? 15) || (opponentScore s >=? 15));
    [destruct (playerScore s >=? 15)|]; run_handler; reflexivity.
Qed.

Lemma envidoResolve_run pp op w :
  envidoResolve pp op w
  = (Return tt, mkWorld (now w) (store (snd (envidoResolve pp op w))) (timers w)).
Proof.
  unfold envidoResolve.
  destruct (pp >? op); [|destruct (pp <? op)]; run_handler; reflexivity.
Qed.

Lemma envidoResolve_playerScore pp op w :
  playerScore (store (snd (envidoResolve pp op w)))
  = playerScore (store w) + (if pp >? op then 2 else 0).
Proof. exact (proj1 (proj2 (envidoResolve_effect pp op w))). Qed.

Lemma envidoResolve_opponentScore pp op w :
  opponentScore (store (snd (envidoResolve pp op w)))
  = opponentScore (store w) + (if pp >? op then 0 else 2).
Proof. exact (proj1 (proj2 (proj2 (envidoResolve_effect pp op w)))). Qed.

Lemma settle_fire n w t rest o w' :
  popEarliest (timers w) = Some (t, rest) ->
  fire t (mkWorld (Z.max (now w) (due t)) (store w) rest) = (o, w') ->
  settle (S n) w = ((callback t, o) :: fst (settle n w'), snd (settle n w')).
Proof.
  intros Hp Hf. simpl. unfold step. rewrite Hp, Hf.
  destruct (settle n w'). reflexivity.
Qed.

Ltac order_timers :=
  repeat match goal with
         | |- context [?a <=? ?b] =>
             let E := fresh "E" in
             destruct (a <=? b) eqn:E;
             [apply Z.leb_le in E | apply Z.leb_gt in E];
             try (exfalso; lia)
         end.

Ltac pop_next := cbn [popEarliest timers due app]; order_timers; reflexivity.

(** An Envido call accepted at time [now w], with a trick evaluated at a
    time [T] that a card played after the call allows: the Envido points
    are awarded before the hand's points, and both are added. *)
Lemma envido_before_hand_award w s' pc oc T :
  timers w = [] -> envidoEnabled (store w) = true ->
  player (roundCards s') = Some pc ->
  Forall (fun r => In (winner r) ["player"; "opponent"; "tie"]) (rounds s') ->
  handIsOver s' (snd (fst (trickOutcome s' pc oc))) = true ->
  now w + 2000 <= T ->
  let pp := player (envidoPoints (store w)) in
  let op := opponent (envidoPoints (store w)) in
  let nrw := snd (fst (trickOutcome s' pc oc)) in
  let w1 := snd (clickEnvido w) in
  let r := settle 5 (mkWorld (now w1) (store w1) (timers w1 ++ [mkTimer T s' (Evaluate oc)])) in
  (map fst (fst r) = [EnvidoAnnounce pp op; Evaluate oc; EnvidoResolve pp op;
                      ClearRound nrw; GameEndCheck]
   \/ map fst (fst r) = [EnvidoAnnounce pp op; EnvidoResolve pp op; Evaluate oc;
                         ClearRound nrw; GameEndCheck])
  /\ timers (snd r) = []
  /\ playerScore (store (snd r))
     = playerScore (store w) + (if pp >? op then 2 else 0)
       + award "player" (handWinner s' nrw) (trucoValue s')
  /\ opponentScore (store (snd r))
     = opponentScore (store w) + (if pp >? op then 0 else 2)
       + award "opponent" (handWinner s' nrw) (trucoValue s').
Proof.
  intros Ht Hen Hpc Hw Hover HT pp op nrw w1 r.
  assert (Hr : exists st nw tr,
             r = (tr, mkWorld nw st [])
             /\ (map fst tr = [EnvidoAnnounce pp op; Evaluate oc; EnvidoResolve pp op;
                               ClearRound nrw; GameEndCheck]
                 \/ map fst tr = [EnvidoAnnounce pp op; EnvidoResolve pp op; Evaluate oc;
                                  ClearRound nrw; GameEndCheck])
             /\ playerScore st
                = playerScore (store w) + (if pp >? op then 2 else 0)
                  + award "player" (handWinner s' nrw) (trucoValue s')
             /\ opponentScore st
                = opponentScore (store w) + (if pp >? op then 0 else 2)
                  + award "opponent" (handWinner s' nrw) (trucoValue s')).
  { subst r w1. rewrite (clickEnvido_accepted w Hen). fold pp op. rewrite Ht.
    cbn [snd now store timers app].
    erewrite settle_fire; [|pop_next|cbn [callback closure fire]; unfold envidoAnnounce;
                                     run_handler; reflexivity].
    cbn [callback app].
    destruct (Z_le_gt_dec T (now w + 3000)) as [Early|Late].
    - erewrite settle_fire; [|pop_next|cbn [callback closure fire];
                                       apply (evaluateRound_run s' pc oc _ Hpc)].
      fold nrw. cbn [callback now store timers app].
      erewrite settle_fire; [|pop_next|cbn [callback closure fire];
                                       apply envidoResolve_run].
      cbn [callback now store timers app].
      erewrite settle_fire; [|pop_next|cbn [callback closure fire];
                                       apply (clearRound_over_run _ _ _ Hover)].
      cbn [callback now store timers app].
      erewrite settle_fire; [|pop_next|cbn [callback closure fire];
                                       apply gameEndCheck_run].
      cbn [callback now store timers app settle fst snd].
      do 3 eexists. split; [reflexivity|]. split; [left; reflexivity|].
      rewrite gameEndCheck_playerScore, gameEndCheck_opponentScore. cbn [store].
      rewrite clearRound_over_playerScore, clearRound_over_opponentScore by assumption.
      cbn [store].
      rewrite envidoResolve_playerScore, envidoResolve_opponentScore.
      read_store. split; reflexivity.
    - erewrite settle_fire; [|pop_next|cbn [callback closure fire];
                                       apply envidoResolve_run].
      cbn [callback now store timers app].
      erewrite settle_fire; [|pop_next|cbn [callback closure fire];
                                       apply (evaluateRound_run s' pc oc _ Hpc)].
      fold nrw. cbn [callback now store timers app].
      erewrite settle_fire; [|pop_next|cbn [callback closure fire];
                                       apply (clearRound_over_run _ _ _ Hover)].
      cbn [callback now store timers app].
      erewrite settle_fire; [|pop_next|cbn [callback closure fire];
                                       apply gameEndCheck_run].
      cbn [callback now store timers app settle fst snd].
      do 3 eexists. split; [reflexivity|]. split; [right; reflexivity|].
      rewrite gameEndCheck_playerScore, gameEndCheck_opponentScore. cbn [store].
      rewrite clearRound_over_playerScore, clearRound_over_opponentScore by assumption.
      read_store.
      rewrite envidoResolve_playerScore, envidoResolve_opponentScore.
      read_store. split; reflexivity. }
  destruct Hr as (st & nw & tr & Er & Htr & Hp & Ho).
  rewrite Er. cbn [fst snd timers store]. auto.
Qed.

(** The call settles by itself: announced after 1000 ms, resolved 2000 ms
    later. *)
Lemma envido_settles w :
  timers w = [] -> envidoEnabled (store w) = true ->
  let s := store w in
  let pp := player (envidoPoints s) in
  let op := opponent (envidoPoints s) in
  let r := settle 2 (snd (clickEnvido w)) in
  fst r = [(EnvidoAnnounce pp op, Return tt); (EnvidoResolve pp op, Return tt)]
  /\ timers (snd r) = []
  /\ now (snd r) = now w + 3000
  /\ playerScore (store (snd r)) = playerScore s + (if pp >? op then 2 else 0)
  /\ opponentScore (store (snd r)) = opponentScore s + (if pp >? op then 0 else 2)
  /\ (truco (store (snd r)), trucoValue (store (snd r)))
     = (truco s, trucoValue s)
  /\ (rounds (store (snd r)), roundWins (store (snd r)), currentRound (store (snd r)),
      gameState (store (snd r)))
     = (rounds s, roundWins s, currentRound s, gameState s).
Proof.
  intros Ht Hen s pp op r. subst r.
  rewrite (clickEnvido_accepted w Hen). fold s pp op. rewrite Ht.
  cbn [snd now store timers app].
  erewrite settle_fire; [|pop_next|cbn [callback closure fire]; unfold envidoAnnounce;
                                   run_handler; reflexivity].
  cbn [callback app].
  erewrite settle_fire; [|pop_next|cbn [callback closure fire]; apply envidoResolve_run].
  cbn [callback now store timers app settle fst snd due].
  destruct (envidoResolve_effect pp op
              {| now := Z.max (Z.max (now w) (now w + 1000))
                          (Z.max (now w) (now w + 1000) + 2000);
                 store := with_message
                            (template ["Envido called! Your points: "; showNumber pp;
                                       ", Opponent's points: "; showNumber op])
                            (with_envido true s);
                 timers := [] |}) as (_ & Hp & Ho & _ & Hc & Hh).
  cbv zeta in Hp, Ho, Hc, Hh. revert Hp Ho Hc Hh. read_store. intros Hp Ho Hc Hh.
  split; [reflexivity|]. split; [reflexivity|]. split; [lia|].
  split; [exact Hp|]. split; [exact Ho|]. split; [congruence | exact Hh].
Qed.

(** The delays of a trick: the opponent replies 1000 ms after the card is
    played, the trick is evaluated 1000 ms after the reply, and the block
    that closes the hand comes 1500 ms after the evaluation. *)
Lemma trick_delays s w :
  (forall card, gameState s = "playing" ->
     exists h, timers (snd (playCard s card w))
               = timers w ++ [mkTimer (now w + 1000) s (OpponentTurn h)])
  /\ (forall h, fst (playOpponentCard s h w) = Return tt ->
        exists c, timers (snd (playOpponentCard s h w))
                  = timers w ++ [mkTimer (now w + 1000) s (Evaluate c)])
  /\ (forall oc, fst (evaluateRound s oc w) = Return tt ->
        exists n, timers (snd (evaluateRound s oc w))
                  = timers w ++ [mkTimer (now w + 1500) s (ClearRound n)]).
Proof.
  split; [|split].
  - intros card G. unfold playCard. apply String.eqb_eq in G. rewrite G. cbn [negb].
    run_handler. eexists. reflexivity.
  - intros h. unfold playOpponentCard. run_handler.
    split_cases; run_handler; intros R; try discriminate; eexists; reflexivity.
  - intros oc. unfold evaluateRound.
    destruct (player (roundCards s)) as [pc|]; [|discriminate].
    destruct (trickOutcome s pc oc) as [[rw nrw] text]. run_handler.
    intros _. eexists. reflexivity.
Qed.

(** Once a trick has been resolved the Envido can no longer be called. *)
Lemma envido_closed_after_trick s pc oc t :
  player (roundCards s) = Some pc -> 1 <= currentRound s ->
  envidoEnabled (store (afterTrick s oc t)) = false.
Proof.
  intros Hpc Hr.
  destruct (afterTrick_effect s pc oc t Hpc) as (_ & _ & _ & _ & _ & Hg & Hc).
  cbv zeta in Hg, Hc.
  destruct (envidoEnabled (store (afterTrick s oc t))) eqn:E; [|reflexivity].
  apply envidoEnabled_iff in E as (G & _ & _ & R).
  rewrite Hg in G. rewrite Hc in R.
  destruct (handIsOver s _).
  - destruct ((playerScore s >=? 15) || (opponentScore s >=? 15)); discriminate.
  - lia.
Qed.

(** C8. The Envido button accepts a call exactly while the hand is being
    played, the player's slot is empty, no Envido has been called and the
    round is the first; such a call sets the flag and schedules the
    announcement.  Any other click is rejected and changes nothing: in
    particular a second call, whatever has happened in the hand since the
    first, and a call in the second or third trick; once a trick has
    been resolved the button is closed.  Left alone, an accepted call
    resolves 3000 ms later: the side with strictly more Envido points
    gains exactly 2, the opponent gains them on equal points, and neither
    the Truco state nor the tricks are touched.  When the hand ends on a
    trick evaluated after the call, the Envido points are awarded before
    the hand's Truco points and the two awards add up. *)
Theorem callEnvido_once_in_first_trick :
  forall w,
    let s := store w in
    let pp := player (envidoPoints s) in
    let op := opponent (envidoPoints s) in
    (envidoEnabled s = true
     <-> gameState s = "playing" /\ player (roundCards s) = None
         /\ envido s = false /\ currentRound s <= 1)
    /\ (envidoEnabled s = true ->
        clickEnvido w
        = (Return tt,
           mkWorld (now w) (with_envido true s)
             (timers w ++ [mkTimer (now w + 1000) s (EnvidoAnnounce pp op)])))
    /\ (envidoEnabled s = false -> clickEnvido w = (Return tt, w))
    /\ (envido s = true ->
        callEnvido s w = (Return tt, w)
        /\ forall es, clickEnvido (handEvents es w) = (Return tt, handEvents es w))
    /\ (currentRound s > 1 -> clickEnvido w = (Return tt, w))
    /\ (forall s0 pc oc t,
           player (roundCards s0) = Some pc -> 1 <= currentRound s0 ->
           envidoEnabled (store (afterTrick s0 oc t)) = false)
    /\ (timers w = [] -> envidoEnabled s = true ->
        let r := settle 2 (snd (clickEnvido w)) in
        fst r = [(EnvidoAnnounce pp op, Return tt); (EnvidoResolve pp op, Return tt)]
        /\ timers (snd r) = []
        /\ now (snd r) = now w + 3000
        /\ playerScore (store (snd r)) = playerScore s + (if pp >? op then 2 else 0)
        /\ opponentScore (store (snd r)) = opponentScore s + (if pp >? op then 0 else 2)
        /\ (truco (store (snd r)), trucoValue (store (snd r))) = (truco s, trucoValue s)
        /\ (rounds (store (snd r)), roundWins (store (snd r)),
            currentRound (store (snd r)), gameState (store (snd r)))
           = (rounds s, roundWins s, currentRound s, gameState s))
    /\ (forall s' pc oc T,
           timers w = [] -> envidoEnabled s = true ->
           player (roundCards s') = Some pc ->
           Forall (fun r => In (winner r) ["player"; "opponent"; "tie"]) (rounds s') ->
           handIsOver s' (snd (fst (trickOutcome s' pc oc))) = true ->
           now w + 2000 <= T ->
           let nrw := snd (fst (trickOutcome s' pc oc)) in
           let w1 := snd (clickEnvido w) in
           let r := settle 5 (mkWorld (now w1) (store w1)
                                (timers w1 ++ [mkTimer T s' (Evaluate oc)])) in
           (map fst (fst r) = [EnvidoAnnounce pp op; Evaluate oc; EnvidoResolve pp op;
                               ClearRound nrw; GameEndCheck]
            \/ map fst (fst r) = [EnvidoAnnounce pp op; EnvidoResolve pp op; Evaluate oc;
                                  ClearRound nrw; GameEndCheck])
           /\ timers (snd r) = []
           /\ playerScore (store (snd r))
              = playerScore s + (if pp >? op then 2 else 0)
                + award "player" (handWinner s' nrw) (trucoValue s')
           /\ opponentScore (store (snd r))
              = opponentScore s + (if pp >? op then 0 else 2)
                + award "opponent" (handWinner s' nrw) (trucoValue s')).
Proof.
  intros w s pp op.
  split; [apply envidoEnabled_iff|].
  split; [apply clickEnvido_accepted|].
  split; [apply clickEnvido_rejected|].
  split.
  { intros E. split.
    - unfold callEnvido. fold s. rewrite E. reflexivity.
    - intros es. apply clickEnvido_rejected.
      destruct (envidoEnabled (store (handEvents es w))) eqn:En; [|reflexivity].
      apply envidoEnabled_iff in En as (_ & _ & F & _).
      rewrite (handEvents_keep_envido es w E) in F. discriminate. }
  split.
  { intros R. apply clickEnvido_rejected.
    destruct (envidoEnabled (store w)) eqn:En; [|reflexivity].
    apply envidoEnabled_iff in En as (_ & _ & _ & L). fold s in L. lia. }
  split; [intros s0 pc oc t; apply envido_closed_after_trick|].
  split; [apply envido_settles|].
  intros s' pc oc T Ht Hen Hpc Hw Hover HT.
  exact (envido_before_hand_award w s' pc oc T Ht Hen Hpc Hw Hover HT).
Qed.

Lemma callEnvido_once_in_first_trick_witness :
  let w := mount createDeck in
  envidoPoints (store w) = mkSides 25 31
  /\ playerScore (store (snd (settle 2 (snd (clickEnvido w))))) = 0
  /\ opponentScore (store (snd (settle 2 (snd (clickEnvido w))))) = 2.
Proof.
  intros w.
  assert (Ht : timers w = []) by (vm_compute; reflexivity).
  assert (He : envidoEnabled (store w) = true) by (vm_compute; reflexivity).
  destruct (callEnvido_once_in_first_trick w) as (_ & _ & _ & _ & _ & _ & H & _).
  destruct (H Ht He) as (_ & _ & _ & Hp & Ho & _).
  split; [vm_compute; reflexivity|]. split.
  - rewrite Hp. vm_compute. reflexivity.
  - rewrite Ho. vm_compute. reflexivity.
Defined.

(** ** Remarks on the handlers *)

(** [callEnvido] itself tests the flag only: the restriction to the first
    trick is the button's. *)
Remark callEnvido_tests_flag_only :
  let s := with_currentRound 2 idleStore in
  envidoEnabled s = false
  /\ envido (store (snd (callEnvido s (quiet s)))) = true.
Proof. vm_compute. split; reflexivity. Qed.

(** The opponent's reply that [playCard] schedules runs with the values
    of the render in which the card was clicked.  There the player's slot
    is still empty, so the first comparison reads a property of [null]:
    the reply throws and the opponent's slot stays empty. *)
Remark reply_reads_slot_of_click_render card w :
  timers w = [] ->
  mem card (playerHand (store w)) = true -> playable (store w) = true ->
  opponentHand (store w) <> [] ->
  let r := settle 1 (snd (clickCard card w)) in
  exists h, fst r = [(OpponentTurn h, Throw TypeError)]
            /\ player (roundCards (store (snd r))) = Some card
            /\ opponent (roundCards (store (snd r))) = opponent (roundCards (store w))
            /\ timers (snd r) = [].
Proof.
  intros Ht Hm Hp Hne r. subst r.
  unfold clickCard. rewrite Hm, Hp. cbn [andb].
  unfold playable in Hp. apply andb_true_iff in Hp as [G N].
  unfold playCard. rewrite G. cbn [negb]. run_handler. rewrite Ht.
  cbn [app].
  destruct (player (roundCards (store w))) as [c|] eqn:Ep; [discriminate|].
  assert (Hs : exists x l, sortedHandOf (opponentHand (store w)) = x :: l).
  { destruct (sortedHandOf (opponentHand (store w))) as [|x l] eqn:E; [|eauto].
    exfalso. destruct (opponentHand (store w)) as [|y t] eqn:Eo; [congruence|].
    assert (I : In y (sortedHandOf (y :: t))) by (apply in_sortedHandOf; now left).
    rewrite E in I. destruct I. }
  destruct Hs as (x & l & Es).
  erewrite settle_fire; [|pop_next|].
  2:{ cbn [callback closure fire]. unfold playOpponentCard. rewrite Ep, Es.
      run_handler. reflexivity. }
  cbn [callback settle fst snd]. eexists. read_store.
  repeat split; reflexivity.
Qed.

(* ================================================================== *)
(** * Part III: further properties of the code *)
(* ================================================================== *)

(** ** The deck *)

(** The deck holds exactly the cards of the four suits and ten values,
    suit by suit, each suit in the order of the values. *)
Theorem createDeck_suit_major :
  (forall c, In c createDeck <-> In (suit c) SUITS /\ In (value c) CARD_VALUES)
  /\ (forall i j, (i < 4)%nat -> (j < 10)%nat ->
        nth_error createDeck (10 * i + j)
        = Some (mkCard (nth i SUITS EmptyString) (nth j CARD_VALUES 0))).
Proof.
  split.
  - intros [s v]. unfold createDeck. rewrite in_flat_map. simpl suit. simpl value. split.
    + intros [s' [Hs Hc]]. apply in_map_iff in Hc as [v' [E Hv]].
      inversion E; subst. auto.
    + intros [Hs Hv]. exists s. split; [assumption|]. now apply in_map.
  - intros i j Hi Hj.
    do 4 (destruct i as [|i]; [do 10 (destruct j as [|j]; [reflexivity|]); lia|]). lia.
Qed.

Lemma createDeck_suit_major_witness :
  nth_error createDeck 26 = Some (mkCard "oros" 7).
Proof.
  destruct createDeck_suit_major as [_ H].
  exact (H 2%nat 6%nat ltac:(lia) ltac:(lia)).
Defined.

(** ** Shuffling *)

Section ShuffleFacts.
Context {A : Type} (eq_dec : forall x y : A, {x = y} + {x <> y}).

Lemma length_assign (l : list A) n v : List.length (assign l n v) = List.length l.
Proof.
  revert n; induction l as [|x t IH]; intros [|n]; simpl; auto.
Qed.

Lemma nth_error_assign_same (l : list A) n v :
  (n < List.length l)%nat -> nth_error (assign l n v) n = Some v.
Proof.
  revert n; induction l as [|x t IH]; intros [|n] H; simpl in *; try lia; auto.
  apply IH. lia.
Qed.

Lemma nth_error_assign_other (l : list A) n m v :
  n <> m -> nth_error (assign l n v) m = nth_error l m.
Proof.
  revert n m; induction l as [|x t IH]; intros [|n] [|m] H; simpl; auto; try congruence.
Qed.

Lemma count_assign (l : list A) n v old x :
  nth_error l n = Some old ->
  (count_occ eq_dec (assign l n v) x + (if eq_dec old x then 1 else 0)
   = count_occ eq_dec l x + (if eq_dec v x then 1 else 0))%nat.
Proof.
  revert n; induction l as [|y t IH]; intros [|n] H; simpl in H; try discriminate.
  - inversion H; subst y. simpl.
    destruct (eq_dec v x), (eq_dec old x); lia.
  - simpl. specialize (IH n H). destruct (eq_dec y x); lia.
Qed.

Lemma index_nth_error (l : list A) i a :
  index l i = Some a -> 0 <= i /\ nth_error l (Z.to_nat i) = Some a.
Proof.
  unfold index. destruct (i <? 0) eqn:E; [discriminate|].
  apply Z.ltb_ge in E. auto.
Qed.

Lemma index_in_range (l : list A) i :
  0 <= i < Z.of_nat (List.length l) -> exists a, index l i = Some a.
Proof.
  intros H. unfold index. destruct (i <? 0) eqn:E; [apply Z.ltb_lt in E; lia|].
  destruct (nth_error l (Z.to_nat i)) as [a|] eqn:N; [eauto|].
  apply nth_error_None in N. lia.
Qed.

Lemma swapAt_permutation (l l' : list A) i j :
  swapAt l i j = Some l' -> Permutation l' l /\ List.length l' = List.length l.
Proof.
  unfold swapAt. destruct (index l i) as [a|] eqn:Ei; [|discriminate].
  destruct (index l j) as [b|] eqn:Ej; [|discriminate].
  intros E. inversion E; subst l'; clear E.
  apply index_nth_error in Ei as [_ Ni]. apply index_nth_error in Ej as [_ Nj].
  split; [|now rewrite !length_assign].
  apply (Permutation_count_occ eq_dec). intros x.
  pose proof (count_assign l (Z.to_nat i) b a x Ni) as C1.
  assert (Nj' : nth_error (assign l (Z.to_nat i) b) (Z.to_nat j) = Some b).
  { destruct (Nat.eq_dec (Z.to_nat i) (Z.to_nat j)) as [E|E].
    - rewrite <- E. apply nth_error_assign_same. apply nth_error_Some. congruence.
    - rewrite nth_error_assign_other by assumption. exact Nj. }
  pose proof (count_assign _ (Z.to_nat j) a b x Nj') as C2.
  destruct (eq_dec a x), (eq_dec b x); lia.
Qed.

Lemma shuffleFrom_permutation (draw : Z -> Z) i (l : list A) :
  (i < List.length l)%nat ->
  (forall k, 0 < k <= Z.of_nat i -> 0 <= draw k <= k) ->
  exists l', shuffleFrom draw i l = Some l' /\ Permutation l' l
             /\ List.length l' = List.length l.
Proof.
  revert l; induction i as [|i IH]; intros l Hi Hd.
  - exists l. simpl. auto.
  - cbn [shuffleFrom].
    destruct (index_in_range l (Z.of_nat (S i)) ltac:(lia)) as [a Ea].
    destruct (index_in_range l (draw (Z.of_nat (S i)))) as [b Eb].
    { specialize (Hd (Z.of_nat (S i)) ltac:(lia)). lia. }
    destruct (swapAt l (Z.of_nat (S i)) (draw (Z.of_nat (S i)))) as [l1|] eqn:Es.
    2:{ unfold swapAt in Es. rewrite Ea, Eb in Es. discriminate. }
    destruct (swapAt_permutation _ _ _ _ Es) as [P1 L1].
    destruct (IH l1) as (l' & E & P & L).
    + lia.
    + intros k Hk. apply Hd. lia.
    + exists l'. split; [exact E|]. split; [now rewrite P | lia].
Qed.
End ShuffleFacts.

(** Whatever the draws, as long as each lies between 0 and its index,
    [shuffleDeck] returns a rearrangement of the deck it was given: the
    same cards, each as often as before.  A deck of at most one card comes
    back as it is, without a draw being looked at. *)
Theorem shuffleDeck_permutation :
  forall (draw : Z -> Z) (deck : list Card),
    (forall i, 0 < i < Z.of_nat (List.length deck) -> 0 <= draw i <= i) ->
    exists shuffled,
      shuffleDeck draw deck = Some shuffled
      /\ Permutation shuffled deck
      /\ List.length shuffled = List.length deck
      /\ ((List.length deck <= 1)%nat -> shuffled = deck).
Proof.
  intros draw deck Hd. unfold shuffleDeck.
  destruct deck as [|c deck].
  - exists []. simpl. auto.
  - destruct (shuffleFrom_permutation card_eq_dec draw (List.length (c :: deck) - 1) (c :: deck))
      as (l' & E & P & L).
    + simpl. lia.
    + intros k Hk. apply Hd. simpl List.length in *. lia.
    + exists l'. split; [exact E|]. split; [exact P|]. split; [exact L|].
      intros H1. destruct deck; [|simpl in H1; lia]. simpl in E. congruence.
Qed.

Lemma shuffleDeck_permutation_witness :
  exists shuffled,
    shuffleDeck (fun _ => 0) createDeck = Some shuffled /\ Permutation shuffled createDeck.
Proof.
  destruct (shuffleDeck_permutation (fun _ => 0) createDeck) as (l & E & P & _).
  - intros i Hi. lia.
  - exists l. split; assumption.
Defined.

(** ** Dealing *)

Lemma deck_triples (P : Card -> Card -> Card -> bool) :
  forallb (fun a => forallb (fun b => forallb (fun c =>
     implb (distinct3 a b c) (P a b c)) createDeck) createDeck) createDeck = true ->
  forall a b c, In a createDeck -> In b createDeck -> In c createDeck ->
    NoDup [a; b; c] -> P a b c = true.
Proof.
  intros H a b c Ha Hb Hc N.
  pose proof (forallb_In _ _ H a Ha) as H1. cbv beta in H1.
  pose proof (forallb_In _ _ H1 b Hb) as H2. cbv beta in H2.
  pose proof (forallb_In _ _ H2 c Hc) as H3. cbv beta in H3.
  assert (D : distinct3 a b c = true).
  { unfold distinct3.
    inversion N as [|x l Nab N1]; subst. inversion N1 as [|y l' Nbc N2]; subst.
    rewrite !andb_true_iff, !negb_true_iff. repeat split; apply card_eqb_neq.
    - intros ->. apply Nab. now left.
    - intros ->. apply Nab. right. now left.
    - intros ->. apply Nbc. now left. }
  rewrite D in H3. exact H3.
Qed.

Lemma NoDup_app_disjoint {B} (l1 l2 : list B) c :
  NoDup (l1 ++ l2) -> In c l1 -> ~ In c l2.
Proof.
  induction l1 as [|x t IH]; intros N H; [destruct H|].
  simpl in N. apply NoDup_cons_iff in N as [Nx Nt].
  destruct H as [->|H]; [|now apply IH].
  intros I. apply Nx. apply in_or_app. now right.
Qed.

Lemma deal_split (d : list Card) :
  firstn 3 d ++ firstn 3 (skipn 3 d) ++ skipn 6 d = d.
Proof.
  change 6%nat with (3 + 3)%nat. rewrite <- skipn_skipn.
  rewrite (firstn_skipn 3 (skipn 3 d)). apply firstn_skipn.
Qed.

(** Dealing splits the deck it is given and loses nothing: the player's
    hand, the opponent's hand and the rest, in this order, are the deck.
    From a deck of at least six cards each side receives three; from a
    deck without duplicates no card is dealt twice and no dealt card stays
    in the rest. *)
Theorem startNewHand_splits_deck :
  forall newDeck w,
    let s := store (snd (startNewHand newDeck w)) in
    playerHand s ++ opponentHand s ++ deck s = newDeck
    /\ ((6 <= List.length newDeck)%nat ->
        List.length (playerHand s) = 3%nat /\ List.length (opponentHand s) = 3%nat
        /\ (List.length (deck s) + 6 = List.length newDeck)%nat)
    /\ (NoDup newDeck ->
        NoDup (playerHand s ++ opponentHand s)
        /\ forall c, In c (playerHand s ++ opponentHand s) -> ~ In c (deck s)).
Proof.
  intros newDeck w s.
  destruct (startNewHand_fresh newDeck w) as (_ & Hp & Ho & Hd & _).
  fold s in Hp, Ho, Hd. rewrite Hp, Ho, Hd.
  split; [apply deal_split|]. split.
  - intros L. rewrite !length_firstn, !length_skipn. lia.
  - intros N. rewrite <- (deal_split newDeck), app_assoc in N.
    split.
    + eapply NoDup_app_remove_r. exact N.
    + intros c Hc. exact (NoDup_app_disjoint _ _ c N Hc).
Qed.

Lemma startNewHand_splits_deck_witness :
  let s := store (mount createDeck) in
  playerHand s = [mkCard "espadas" 1; mkCard "espadas" 2; mkCard "espadas" 3]
  /\ List.length (deck s) = 34%nat.
Proof.
  intros s.
  destruct (startNewHand_splits_deck createDeck (mkWorld 0 initialStore []))
    as (_ & L & _).
  assert (H6 : (6 <= List.length createDeck)%nat) by (vm_compute; lia).
  destruct (L H6) as (_ & _ & Ld).
  split; [vm_compute; reflexivity|].
  change (store (snd (startNewHand createDeck (mkWorld 0 initialStore [])))) with s in Ld.
  change (List.length createDeck) with 40%nat in Ld. lia.
Defined.

Lemma in_firstn_list {B} n (d : list B) x : In x (firstn n d) -> In x d.
Proof.
  intros H. rewrite <- (firstn_skipn n d). apply in_or_app. now left.
Qed.

Lemma in_skipn_list {B} n (d : list B) x : In x (skipn n d) -> In x d.
Proof.
  intros H. rewrite <- (firstn_skipn n d). apply in_or_app. now right.
Qed.

Lemma firstn3_of_long {B} (d : list B) :
  (3 <= List.length d)%nat -> exists a b c, firstn 3 d = [a; b; c].
Proof.
  destruct d as [|a [|b [|c d]]]; simpl; intros H; try lia. eauto.
Qed.

(** A hand dealt from any rearrangement of the deck is made of three
    distinct deck cards, for either side, so its Envido points lie
    between 0 and 33 and are the score that the specification words. *)
Theorem dealt_envido_points :
  forall newDeck w,
    Permutation newDeck createDeck ->
    let s := store (snd (startNewHand newDeck w)) in
    player (envidoPoints s) = envido_spec (playerHand s)
    /\ opponent (envidoPoints s) = envido_spec (opponentHand s)
    /\ 0 <= player (envidoPoints s) <= 33
    /\ 0 <= opponent (envidoPoints s) <= 33.
Proof.
  intros newDeck w P s.
  destruct (startNewHand_fresh newDeck w) as (_ & Hp & Ho & _ & _ & _ & _ & _ & He & _).
  fold s in Hp, Ho, He. rewrite He, Hp, Ho. cbn [player opponent].
  assert (L : List.length newDeck = 40%nat) by (rewrite (Permutation_length P); reflexivity).
  assert (N : NoDup newDeck).
  { apply (Permutation_NoDup (Permutation_sym P)). apply nodupb_NoDup. reflexivity. }
  assert (Hin : forall c, In c newDeck -> In c createDeck).
  { intros c. apply Permutation_in. exact P. }
  rewrite <- (deal_split newDeck), app_assoc in N.
  apply NoDup_app_remove_r in N.
  assert (N1 := NoDup_app_remove_r _ _ N). assert (N2 := NoDup_app_remove_l _ _ N).
  destruct (firstn3_of_long newDeck ltac:(lia)) as (a & b & c & E1).
  destruct (firstn3_of_long (skipn 3 newDeck)) as (a' & b' & c' & E2).
  { rewrite length_skipn. lia. }
  assert (In1 : forall x, In x [a; b; c] -> In x createDeck).
  { intros x Hx. apply Hin. rewrite <- E1 in Hx. eapply in_firstn_list; eauto. }
  assert (In2 : forall x, In x [a'; b'; c'] -> In x createDeck).
  { intros x Hx. apply Hin. rewrite <- E2 in Hx.
    apply in_firstn_list in Hx. eapply in_skipn_list; eauto. }
  rewrite E1 in *. rewrite E2 in *.
  pose proof (deck_triples envido_agrees envido_all_hands a b c
                (In1 a ltac:(simpl; auto)) (In1 b ltac:(simpl; auto))
                (In1 c ltac:(simpl; auto)) N1) as A1.
  pose proof (deck_triples envido_agrees envido_all_hands a' b' c'
                (In2 a' ltac:(simpl; auto)) (In2 b' ltac:(simpl; auto))
                (In2 c' ltac:(simpl; auto)) N2) as A2.
  unfold envido_agrees in A1, A2.
  apply andb_true_iff in A1 as [A1 U1]. apply andb_true_iff in A1 as [Q1 L1].
  apply andb_true_iff in A2 as [A2 U2]. apply andb_true_iff in A2 as [Q2 L2].
  apply Z.eqb_eq in Q1, Q2. apply Z.leb_le in L1, L2, U1, U2.
  repeat split; try assumption; lia.
Qed.

Lemma dealt_envido_points_witness :
  0 <= player (envidoPoints (store (mount createDeck))) <= 33.
Proof.
  exact (proj1 (proj2 (proj2 (dealt_envido_points createDeck (mkWorld 0 initialStore [])
                                (Permutation_refl _))))).
Defined.

(** ** The comparator on all cards *)

(** On any two cards, of the deck or not, the comparator is
    antisymmetric (the result for the swapped pair is the opposite
    number), ties exactly on equal rank, and winning is transitive.  Two
    cards that are both outside the deck tie, even when they differ. *)
Theorem compareCards_order :
  forall a b c,
    compareCards a b = - compareCards b a
    /\ (compareCards a b = 0 <-> getCardRank a = getCardRank b)
    /\ (compareCards a b = 1 -> compareCards b c = 1 -> compareCards a c = 1)
    /\ (~ In a createDeck -> ~ In b createDeck -> compareCards a b = 0).
Proof.
  intros a b c.
  pose proof (compareCards_cases a b) as Hab.
  pose proof (compareCards_cases b a) as Hba.
  pose proof (compareCards_cases b c) as Hbc.
  pose proof (compareCards_cases a c) as Hac.
  split; [lia|]. split; [lia|]. split; [lia|].
  intros Ha Hb. apply getCardRank_not_in_deck in Ha, Hb. lia.
Qed.

Lemma compareCards_order_witness :
  compareCards (mkCard "oros" 8) (mkCard "copas" 9) = 0
  /\ compareCards (mkCard "espadas" 1) (mkCard "copas" 4) = 1.
Proof.
  assert (Ha : ~ In (mkCard "oros" 8) createDeck).
  { intros I. apply mem_In in I. vm_compute in I. discriminate. }
  assert (Hb : ~ In (mkCard "copas" 9) createDeck).
  { intros I. apply mem_In in I. vm_compute in I. discriminate. }
  split.
  - destruct (compareCards_order (mkCard "oros" 8) (mkCard "copas" 9) (mkCard "oros" 8))
      as (_ & _ & _ & H). exact (H Ha Hb).
  - destruct (compareCards_order (mkCard "espadas" 1) (mkCard "oros" 7) (mkCard "copas" 4))
      as (_ & _ & H & _). apply H; reflexivity.
Defined.

(** ** Envido points of dealt hands *)

Lemma envido_orders_checked :
  forallb (fun a => forallb (fun b => forallb (fun c =>
     implb (distinct3 a b c) (envido_same_in_any_order a b c))
     createDeck) createDeck) createDeck = true.
Proof. vm_compute. reflexivity. Qed.

Lemma envido_pairs_checked :
  forallb (fun a => forallb (fun b => forallb (fun c =>
     implb (distinct3 a b c) (envido_pair_rule a b c))
     createDeck) createDeck) createDeck = true.
Proof. vm_compute. reflexivity. Qed.

(** The Envido points of a dealt hand do not depend on the order in
    which the three cards are held. *)
Theorem envidoHighest_any_order :
  forall a b c,
    In a createDeck -> In b createDeck -> In c createDeck -> NoDup [a; b; c] ->
    envidoHighest [a; c; b] = envidoHighest [a; b; c]
    /\ envidoHighest [b; a; c] = envidoHighest [a; b; c]
    /\ envidoHighest [b; c; a] = envidoHighest [a; b; c]
    /\ envidoHighest [c; a; b] = envidoHighest [a; b; c]
    /\ envidoHighest [c; b; a] = envidoHighest [a; b; c].
Proof.
  intros a b c Ha Hb Hc N.
  pose proof (deck_triples _ envido_orders_checked a b c Ha Hb Hc N) as H.
  unfold envido_same_in_any_order in H.
  rewrite !andb_true_iff, !Z.eqb_eq in H. tauto.
Qed.

Lemma envidoHighest_any_order_witness :
  envidoHighest [mkCard "bastos" 2; mkCard "espadas" 6; mkCard "espadas" 3] = 29.
Proof.
  assert (Ha : In (mkCard "espadas" 3) createDeck) by (simpl; auto 40).
  assert (Hb : In (mkCard "espadas" 6) createDeck) by (simpl; auto 40).
  assert (Hc : In (mkCard "bastos" 2) createDeck) by (simpl; auto 40).
  assert (N : NoDup [mkCard "espadas" 3; mkCard "espadas" 6; mkCard "bastos" 2]).
  { apply nodupb_NoDup. reflexivity. }
  destruct (envidoHighest_any_order _ _ _ Ha Hb Hc N) as (_ & _ & _ & _ & H).
  rewrite H. reflexivity.
Defined.

(** A dealt hand scores at least 20 exactly when two of its cards share
    a suit; otherwise it scores at most 7. *)
Theorem envidoHighest_pair_threshold :
  forall a b c,
    In a createDeck -> In b createDeck -> In c createDeck -> NoDup [a; b; c] ->
    (20 <= envidoHighest [a; b; c]
     <-> suit a = suit b \/ suit a = suit c \/ suit b = suit c)
    /\ (envidoHighest [a; b; c] < 20 -> envidoHighest [a; b; c] <= 7).
Proof.
  intros a b c Ha Hb Hc N.
  pose proof (deck_triples _ envido_pairs_checked a b c Ha Hb Hc N) as H.
  unfold envido_pair_rule, shareSuit in H.
  destruct (String.eqb_spec (suit a) (suit b)) as [E1|E1];
    destruct (String.eqb_spec (suit a) (suit c)) as [E2|E2];
    destruct (String.eqb_spec (suit b) (suit c)) as [E3|E3];
    cbn [orb] in H; first [apply Z.leb_le in H | idtac];
    split; try (split; intros; try tauto; lia); try lia.
Qed.

Lemma envidoHighest_pair_threshold_witness :
  envidoHighest [mkCard "espadas" 5; mkCard "bastos" 2; mkCard "oros" 10] <= 7.
Proof.
  assert (Ha : In (mkCard "espadas" 5) createDeck) by (simpl; auto 40).
  assert (Hb : In (mkCard "bastos" 2) createDeck) by (simpl; auto 40).
  assert (Hc : In (mkCard "oros" 10) createDeck) by (simpl; auto 40).
  assert (N : NoDup [mkCard "espadas" 5; mkCard "bastos" 2; mkCard "oros" 10]).
  { apply nodupb_NoDup. reflexivity. }
  destruct (envidoHighest_pair_threshold _ _ _ Ha Hb Hc N) as [_ H].
  apply H. vm_compute. reflexivity.
Defined.

(** ** Playing cards *)

Lemma filter_removes_one card hand :
  NoDup hand -> In card hand ->
  Permutation (card :: filter (fun c => negb (card_eqb c card)) hand) hand
  /\ ~ In card (filter (fun c => negb (card_eqb c card)) hand).
Proof.
  intros N H. split.
  - induction hand as [|x t IH]; [destruct H|].
    apply NoDup_cons_iff in N as [Nx Nt]. simpl.
    destruct (card_eqb x card) eqn:E.
    + apply card_eqb_eq in E. subst x. simpl.
      rewrite filter_absent by assumption. reflexivity.
    + simpl. apply card_eqb_neq in E. destruct H as [->|H]; [congruence|].
      rewrite perm_swap. constructor. now apply IH.
  - intros I. apply filter_In in I as [_ I]. rewrite card_eqb_refl in I. discriminate.
Qed.

(** Played from a hand without duplicates that holds it, a card leaves
    the hand alone: the hand shrinks by exactly one card, the other cards
    stay, and the played card lies in the player's slot. *)
Theorem playCard_removes_one_card :
  forall s card w,
    gameState s = "playing" -> NoDup (playerHand s) -> In card (playerHand s) ->
    let s' := store (snd (playCard s card w)) in
    Permutation (card :: playerHand s') (playerHand s)
    /\ ~ In card (playerHand s')
    /\ (List.length (playerHand s') + 1 = List.length (playerHand s))%nat
    /\ player (roundCards s') = Some card.
Proof.
  intros s card w G N H s'. subst s'.
  unfold playCard. apply String.eqb_eq in G. rewrite G. cbn [negb].
  run_handler. read_store.
  destruct (filter_removes_one card (playerHand s) N H) as [P Nin].
  split; [exact P|]. split; [exact Nin|]. split; [|reflexivity].
  apply Permutation_length in P. simpl in P.
  change (fun c : Card => negb (String.eqb (suit c) (suit card) && (value c =? value card)))
    with (fun c : Card => negb (card_eqb c card)). lia.
Qed.

Lemma playCard_removes_one_card_witness :
  ~ In (mkCard "espadas" 2)
       (playerHand (store (snd (playCard (store (mount createDeck)) (mkCard "espadas" 2)
                                  (mount createDeck))))).
Proof.
  assert (G : gameState (store (mount createDeck)) = "playing") by (vm_compute; reflexivity).
  assert (N : NoDup (playerHand (store (mount createDeck)))).
  { apply nodupb_NoDup. vm_compute. reflexivity. }
  assert (H : In (mkCard "espadas" 2) (playerHand (store (mount createDeck)))).
  { apply mem_In. vm_compute. reflexivity. }
  exact (proj1 (proj2 (playCard_removes_one_card _ _ (mount createDeck) G N H))).
Defined.

Lemma classic_winner hand t :
  (exists c, In c hand /\ compareCards c t = 1)
  \/ (forall c, In c hand -> compareCards c t <> 1).
Proof.
  induction hand as [|x l IH].
  - right. intros c [].
  - destruct (Z.eq_dec (compareCards x t) 1) as [E|E].
    + left. exists x. split; [now left | exact E].
    + destruct IH as [[c [I B]]|N].
      * left. exists c. split; [now right | exact B].
      * right. intros c [<-|I]; [exact E | now apply N].
Qed.

(** The opponent's reply in a render that holds the player's card, from
    a hand that is not empty: the handler returns, the card it chooses is
    a card of the hand, it is laid in the opponent's slot, its copies
    leave the hand (exactly one card when the hand has no duplicates),
    the evaluation of the trick is set 1000 ms ahead, and neither the
    player's slot nor a score changes.  If some card of the hand beats the
    player's card, the chosen card beats it and is the weakest that does;
    if none does, the chosen card is the strongest of the hand. *)
Theorem playOpponentCard_reply :
  forall s newPlayerHand w playerCard,
    player (roundCards s) = Some playerCard -> opponentHand s <> [] ->
    exists cardToPlay,
      let r := playOpponentCard s newPlayerHand w in
      let s' := store (snd r) in
      fst r = Return tt
      /\ In cardToPlay (opponentHand s)
      /\ roundCards s' = mkSides (player (roundCards (store w))) (Some cardToPlay)
      /\ opponentHand s' = filter (fun c => negb (card_eqb c cardToPlay)) (opponentHand s)
      /\ (NoDup (opponentHand s) ->
          (List.length (opponentHand s') + 1 = List.length (opponentHand s))%nat)
      /\ timers (snd r) = timers w ++ [mkTimer (now w + 1000) s (Evaluate cardToPlay)]
      /\ (playerScore s', opponentScore s', playerHand s')
         = (playerScore (store w), opponentScore (store w), playerHand (store w))
      /\ ((exists c, In c (opponentHand s) /\ compareCards c playerCard = 1) ->
          compareCards cardToPlay playerCard = 1
          /\ forall c, In c (opponentHand s) -> compareCards c playerCard = 1 ->
                       getCardRank c <= getCardRank cardToPlay)
      /\ ((forall c, In c (opponentHand s) -> compareCards c playerCard <> 1) ->
          forall c, In c (opponentHand s) -> getCardRank cardToPlay <= getCardRank c).
Proof.
  intros s h w pc Hpc Hne.
  assert (Hc : exists c, chooseCard (opponentHand s) pc = Some c /\ In c (opponentHand s)).
  { destruct (classic_winner (opponentHand s) pc) as [Hw|Hl].
    - destruct (chooseCard_weakest_winner _ _ Hw) as (c & E & I & _). eauto.
    - destruct (chooseCard_strongest_when_losing _ _ Hne Hl) as (c & E & I & _). eauto. }
  destruct Hc as (c & Ec & Ic). exists c.
  unfold playOpponentCard. rewrite Hpc. run_handler. rewrite Ec. run_handler. read_store.
  split; [reflexivity|]. split; [exact Ic|]. split; [reflexivity|].
  split; [reflexivity|]. split.
  { intros N. destruct (filter_removes_one c (opponentHand s) N Ic) as [P _].
    apply Permutation_length in P. simpl in P.
    change (fun c0 : Card => negb (String.eqb (suit c0) (suit c) && (value c0 =? value c)))
      with (fun c0 : Card => negb (card_eqb c0 c)). lia. }
  split; [reflexivity|]. split; [reflexivity|]. split.
  - intros Hw. destruct (chooseCard_weakest_winner _ _ Hw) as (c' & E & _ & B & M).
    rewrite Ec in E. inversion E; subst c'. auto.
  - intros Hl. destruct (chooseCard_strongest_when_losing _ _ Hne Hl) as (c' & E & _ & M).
    rewrite Ec in E. inversion E; subst c'. exact M.
Qed.

Lemma playOpponentCard_reply_witness :
  let s := with_opponentHand [mkCard "espadas" 1; mkCard "oros" 6; mkCard "copas" 2]
             (with_roundCards (mkSides (Some (mkCard "copas" 4)) None) idleStore) in
  exists cardToPlay,
    In cardToPlay (opponentHand s)
    /\ opponent (roundCards (store (snd (playOpponentCard s [] (quiet s))))) = Some cardToPlay.
Proof.
  intros s.
  assert (Hpc : player (roundCards s) = Some (mkCard "copas" 4)) by reflexivity.
  assert (Hne : opponentHand s <> []) by discriminate.
  destruct (playOpponentCard_reply s [] (quiet s) _ Hpc Hne) as (c & _ & I & R & _).
  exists c. split; [exact I|]. rewrite R. reflexivity.
Defined.

(** ** Handlers that throw *)

(** Without a card in the player's slot of their render the opponent's
    reply and the evaluation of a trick throw a TypeError and leave the
    component untouched; with an empty opponent hand the reply throws as
    well, after it has emptied the opponent's slot.  In neither case is
    anything scheduled. *)
Theorem handlers_throw_on_missing_card :
  forall s w,
    (player (roundCards s) = None -> opponentHand s <> [] ->
     forall newPlayerHand, playOpponentCard s newPlayerHand w = (Throw TypeError, w))
    /\ (player (roundCards s) = None ->
        forall opponentCard, evaluateRound s opponentCard w = (Throw TypeError, w))
    /\ (opponentHand s = [] ->
        forall newPlayerHand,
          fst (playOpponentCard s newPlayerHand w) = Throw TypeError
          /\ timers (snd (playOpponentCard s newPlayerHand w)) = timers w
          /\ roundCards (store (snd (playOpponentCard s newPlayerHand w)))
             = mkSides (player (roundCards (store w))) None
          /\ opponentHand (store (snd (playOpponentCard s newPlayerHand w))) = []).
Proof.
  intros s w. split; [|split].
  - intros Hn Hne h. unfold playOpponentCard. rewrite Hn.
    destruct (sortedHandOf (opponentHand s)) as [|x l] eqn:E.
    + exfalso. destruct (opponentHand s) as [|y t] eqn:Eo; [congruence|].
      assert (I : In y (sortedHandOf (y :: t))) by (apply in_sortedHandOf; now left).
      rewrite E in I. destruct I.
    + run_handler. reflexivity.
  - intros Hn oc. unfold evaluateRound. rewrite Hn. reflexivity.
  - intros He h. unfold playOpponentCard, chooseCard. rewrite He.
    destruct (player (roundCards s)); run_handler; read_store; repeat split; reflexivity.
Qed.

Lemma handlers_throw_on_missing_card_witness :
  evaluateRound idleStore (mkCard "oros" 7) (quiet idleStore)
  = (Throw TypeError, quiet idleStore).
Proof.
  destruct (handlers_throw_on_missing_card idleStore (quiet idleStore)) as (_ & H & _).
  apply H. reflexivity.
Defined.

(** ** Tricks *)

(** In a render that holds the player's card, [evaluateRound] returns and
    records exactly one trick after those of its render.  The trick goes
    to the card of lower rank index and is tied on equal rank; the round
    wins of the winner grow by one and nothing else is counted; round
    wins that counted the recorded tricks still do.  Scores, hands and
    slots are left alone, and the block that clears the slots is set
    1500 ms ahead. *)
Theorem evaluateRound_records_trick :
  forall s opponentCard w playerCard,
    player (roundCards s) = Some playerCard ->
    exists roundWinner,
      let r := evaluateRound s opponentCard w in
      let s' := store (snd r) in
      fst r = Return tt
      /\ rounds s' = rounds s ++ [mkRound playerCard opponentCard roundWinner]
      /\ (roundWinner = "player" /\ getCardRank playerCard < getCardRank opponentCard
          /\ roundWins s' = mkSides (player (roundWins s) + 1) (opponent (roundWins s))
          \/ roundWinner = "opponent" /\ getCardRank opponentCard < getCardRank playerCard
             /\ roundWins s' = mkSides (player (roundWins s)) (opponent (roundWins s) + 1)
          \/ roundWinner = "tie" /\ getCardRank playerCard = getCardRank opponentCard
             /\ roundWins s' = mkSides (player (roundWins s)) (opponent (roundWins s)))
      /\ (tricksRecorded s -> tricksRecorded s')
      /\ timers (snd r) = timers w ++ [mkTimer (now w + 1500) s (ClearRound (roundWins s'))]
      /\ (playerScore s', opponentScore s', playerHand s', opponentHand s', roundCards s')
         = (playerScore (store w), opponentScore (store w), playerHand (store w),
            opponentHand (store w), roundCards (store w)).
Proof.
  intros s oc w pc Hpc.
  exists (fst (fst (trickOutcome s pc oc))). cbv zeta.
  rewrite (evaluateRound_run s pc oc w Hpc). read_store.
  split; [reflexivity|]. split; [reflexivity|].
  assert (Hcase :
    fst (fst (trickOutcome s pc oc)) = "player" /\ getCardRank pc < getCardRank oc
    /\ snd (fst (trickOutcome s pc oc))
       = mkSides (player (roundWins s) + 1) (opponent (roundWins s))
    \/ fst (fst (trickOutcome s pc oc)) = "opponent" /\ getCardRank oc < getCardRank pc
       /\ snd (fst (trickOutcome s pc oc))
          = mkSides (player (roundWins s)) (opponent (roundWins s) + 1)
    \/ fst (fst (trickOutcome s pc oc)) = "tie" /\ getCardRank pc = getCardRank oc
       /\ snd (fst (trickOutcome s pc oc))
          = mkSides (player (roundWins s)) (opponent (roundWins s))).
  { unfold trickOutcome.
    destruct (compareCards_cases pc oc) as [[E L]|[[E L]|[E L]]]; rewrite E; simpl.
    - left. auto.
    - right; left. auto.
    - right; right. destruct (roundWins s). auto. }
  split; [exact Hcase|]. split; [|split; reflexivity].
  intros (Hw & Hp & Ho). unfold tricksRecorded. read_store.
  rewrite map_app. cbn [map winner]. rewrite !trickWins_snoc, <- Hp, <- Ho.
  destruct Hcase as [(E1 & _ & E2)|[(E1 & _ & E2)|(E1 & _ & E2)]]; rewrite E1, E2;
    (split; [apply Forall_app; split; [exact Hw|]; constructor; [simpl; auto|constructor]|]);
    simpl; split; lia.
Qed.

Lemma evaluateRound_records_trick_witness :
  let s := with_roundCards (mkSides (Some (mkCard "copas" 5)) None) idleStore in
  exists roundWinner,
    rounds (store (snd (evaluateRound s (mkCard "espadas" 7) (quiet s))))
    = [mkRound (mkCard "copas" 5) (mkCard "espadas" 7) roundWinner].
Proof.
  intros s.
  destruct (evaluateRound_records_trick s (mkCard "espadas" 7) (quiet s) _ eq_refl)
    as (r & _ & H & _).
  exists r. exact H.
Defined.

(** While the hand is not over, the delayed block of a trick clears both
    slots, opens the next round in state [playing], changes no score and
    leaves nothing pending. *)
Theorem hand_goes_on :
  forall s playerCard opponentCard t,
    player (roundCards s) = Some playerCard ->
    handIsOver s (snd (fst (trickOutcome s playerCard opponentCard))) = false ->
    let w' := afterTrick s opponentCard t in
    roundCards (store w') = mkSides None None
    /\ currentRound (store w') = currentRound s + 1
    /\ gameState (store w') = "playing"
    /\ (playerScore (store w'), opponentScore (store w'))
       = (playerScore s, opponentScore s)
    /\ (playerHand (store w'), opponentHand (store w'))
       = (playerHand s, opponentHand s)
    /\ timers w' = [].
Proof.
  intros s pc oc t Hpc Hover w'. subst w'. unfold afterTrick.
  rewrite (evaluateRound_run s pc oc _ Hpc).
  run_timers. unfold clearRound. run_handler. rewrite Hover.
  run_handler. run_timers. read_store. repeat split; reflexivity.
Qed.

Lemma hand_goes_on_witness :
  let s := with_playerHand [mkCard "oros" 4; mkCard "copas" 5; mkCard "oros" 7]
             (with_roundCards (mkSides (Some (mkCard "copas" 5)) None) idleStore) in
  currentRound (store (afterTrick s (mkCard "espadas" 7) 0)) = 2.
Proof.
  intros s.
  assert (Hover : handIsOver s (snd (fst (trickOutcome s (mkCard "copas" 5)
                                            (mkCard "espadas" 7)))) = false)
    by (vm_compute; reflexivity).
  destruct (hand_goes_on s _ (mkCard "espadas" 7) 0 eq_refl Hover) as (_ & H & _).
  rewrite H. reflexivity.
Defined.

(** ** What the events of a hand preserve *)

Lemma popEarliest_parts (P : Timer -> Prop) ts t rest :
  popEarliest ts = Some (t, rest) -> Forall P ts -> P t /\ Forall P rest.
Proof.
  revert t rest; induction ts as [|x l IH]; intros t rest E F; [discriminate|].
  inversion F as [|? ? Px Fl]; subst. simpl in E.
  destruct (popEarliest l) as [[t' rest']|] eqn:El.
  - destruct (IH _ _ eq_refl Fl) as [Pt' Fr'].
    destruct (due x <=? due t'); inversion E; subst; auto.
  - inversion E; subst. auto.
Qed.

Lemma fire_scores t w :
  0 <= trucoValue (closure t) -> trucoValuesSane w ->
  trucoValuesSane (snd (fire t w))
  /\ playerScore (store w) <= playerScore (store (snd (fire t w)))
  /\ opponentScore (store w) <= opponentScore (store (snd (fire t w))).
Proof.
  intros Ht [Hs Hf]. unfold trucoValuesSane, fire.
  destruct (callback t);
    unfold playOpponentCard, evaluateRound, clearRound, gameEndCheck,
      envidoAnnounce, envidoResolve;
    run_handler; split_cases; run_handler; read_store;
    (split; [split; [exact Hs|]; first [exact Hf | apply Forall_app; split;
               [exact Hf | constructor; [exact Ht | constructor]]]|]);
    split; lia.
Qed.

Lemma handEvent_scores e w :
  trucoValuesSane w ->
  trucoValuesSane (handEvent e w)
  /\ playerScore (store w) <= playerScore (store (handEvent e w))
  /\ opponentScore (store w) <= opponentScore (store (handEvent e w))
  /\ (e <> TimerFired ->
      playerScore (store (handEvent e w)) = playerScore (store w)
      /\ opponentScore (store (handEvent e w)) = opponentScore (store w)).
Proof.
  intros [Hs Hf]. destruct e; cbn [handEvent].
  - unfold clickCard, playCard, trucoValuesSane.
    split_cases; run_handler; read_store;
      (split; [split; [exact Hs|]; first [exact Hf | apply Forall_app; split;
                 [exact Hf | constructor; [exact Hs | constructor]]]|]);
      repeat split; try reflexivity; lia.
  - unfold clickTruco, callTruco, trucoValuesSane.
    split_cases; run_handler; read_store;
      (split; [split; [lia | exact Hf]|]); repeat split; try reflexivity; lia.
  - unfold clickEnvido, callEnvido, trucoValuesSane.
    split_cases; run_handler; read_store;
      (split; [split; [exact Hs|]; first [exact Hf | apply Forall_app; split;
                 [exact Hf | constructor; [exact Hs | constructor]]]|]);
      repeat split; try reflexivity; lia.
  - unfold step. destruct (popEarliest (timers w)) as [[t rest]|] eqn:E.
    + destruct (popEarliest_parts _ _ _ _ E Hf) as [Pt Fr].
      pose proof (fire_scores t (mkWorld (Z.max (now w) (due t)) (store w) rest) Pt
                    (conj Hs Fr)) as K.
      destruct (fire t _) as [o w']. cbn [snd store] in K.
      destruct K as (K1 & K2 & K3).
      split; [exact K1|]. split; [exact K2|]. split; [exact K3|].
      intros N. congruence.
    + split; [split; assumption|]. split; [lia|]. split; [lia|].
      intros N. congruence.
Qed.

(** While a hand is played no score ever drops, provided no Truco value
    is negative: a click changes no score at all, and the timers only
    add to them.  The proviso itself is kept by every event. *)
Theorem scores_never_drop :
  forall es w,
    trucoValuesSane w ->
    trucoValuesSane (handEvents es w)
    /\ playerScore (store w) <= playerScore (store (handEvents es w))
    /\ opponentScore (store w) <= opponentScore (store (handEvents es w))
    /\ (~ In TimerFired es ->
        playerScore (store (handEvents es w)) = playerScore (store w)
        /\ opponentScore (store (handEvents es w)) = opponentScore (store w)).
Proof.
  induction es as [|e es IH]; intros w H; cbn [handEvents fold_left].
  - repeat split; try apply H; try lia.
  - destruct (handEvent_scores e w H) as (S1 & P1 & O1 & C1).
    destruct (IH (handEvent e w) S1) as (S2 & P2 & O2 & C2).
    fold (handEvents es (handEvent e w)).
    split; [exact S2|]. split; [lia|]. split; [lia|].
    intros N. simpl in N.
    destruct C1 as [C1p C1o]; [intros ->; apply N; now left|].
    destruct C2 as [C2p C2o]; [intros I; apply N; now right|].
    split; congruence.
Qed.

Lemma scores_never_drop_witness :
  let w := handEvents [EnvidoClicked; TimerFired; TimerFired] (mount createDeck) in
  0 <= playerScore (store w) /\ 0 <= opponentScore (store w).
Proof.
  intros w.
  assert (H : trucoValuesSane (mount createDeck)).
  { split; [vm_compute; discriminate | constructor]. }
  destruct (scores_never_drop [EnvidoClicked; TimerFired; TimerFired] _ H)
    as (_ & P & O & _).
  split; [exact P | exact O].
Defined.

Lemma fire_keeps_truco t w :
  truco (store (snd (fire t w))) = truco (store w)
  /\ trucoValue (store (snd (fire t w))) = trucoValue (store w).
Proof.
  unfold fire.
  destruct (callback t);
    unfold playOpponentCard, evaluateRound, clearRound, gameEndCheck,
      envidoAnnounce, envidoResolve;
    run_handler; split_cases; run_handler; read_store; split; reflexivity.
Qed.

Lemma handEvent_truco e w :
  trucoShape (store w) ->
  trucoShape (store (handEvent e w))
  /\ trucoValue (store w) <= trucoValue (store (handEvent e w))
  /\ (truco (store w) = true -> truco (store (handEvent e w)) = true).
Proof.
  intros H. destruct e; cbn [handEvent].
  - assert (E : truco (store (snd (clickCard card w))) = truco (store w)
                /\ trucoValue (store (snd (clickCard card w))) = trucoValue (store w)).
    { unfold clickCard, playCard. split_cases; run_handler; read_store; split; reflexivity. }
    destruct E as [E1 E2]. unfold trucoShape in *. rewrite E1, E2.
    split; [exact H|]. split; [lia | auto].
  - unfold clickTruco.
    destruct (controlsShown (store w) && negb (trucoValue (store w) >=? 4)).
    + destruct (callTruco_invariant (store w) w eq_refl H) as (_ & T & R & V).
      split; [right; split; assumption|]. split; [|intros _; exact T].
      rewrite V. destruct H as [[_ E]|[_ E]]; lia.
    + cbn [snd]. split; [exact H|]. split; [lia | auto].
  - assert (E : truco (store (snd (clickEnvido w))) = truco (store w)
                /\ trucoValue (store (snd (clickEnvido w))) = trucoValue (store w)).
    { unfold clickEnvido, callEnvido. split_cases; run_handler; read_store; split; reflexivity. }
    destruct E as [E1 E2]. unfold trucoShape in *. rewrite E1, E2.
    split; [exact H|]. split; [lia | auto].
  - unfold step. destruct (popEarliest (timers w)) as [[t rest]|].
    + pose proof (fire_keeps_truco t (mkWorld (Z.max (now w) (due t)) (store w) rest)) as K.
      destruct (fire t _) as [o w']. cbn [snd store] in K. destruct K as [E1 E2].
      unfold trucoShape in *. rewrite E1, E2. split; [exact H|]. split; [lia | auto].
    + split; [exact H|]. split; [lia | auto].
Qed.

(** While a hand is played the Truco state keeps its shape (nothing
    called at value 1, or called at a value from 2 to 4), the value never
    drops, and a Truco once called stays called: only the Truco button
    changes it, and only upwards. *)
Theorem truco_value_never_drops :
  forall es w,
    trucoShape (store w) ->
    trucoShape (store (handEvents es w))
    /\ trucoValue (store w) <= trucoValue (store (handEvents es w)) <= 4
    /\ (truco (store w) = true -> truco (store (handEvents es w)) = true).
Proof.
  induction es as [|e es IH]; intros w H; cbn [handEvents fold_left].
  - split; [exact H|]. split; [destruct H as [[_ E]|[_ E]]; lia | auto].
  - destruct (handEvent_truco e w H) as (S1 & V1 & T1).
    destruct (IH (handEvent e w) S1) as (S2 & V2 & T2).
    fold (handEvents es (handEvent e w)).
    split; [exact S2|]. split; [lia | auto].
Qed.

Lemma truco_value_never_drops_witness :
  let w := handEvents [TrucoClicked; EnvidoClicked; TimerFired; TrucoClicked]
             (mount createDeck) in
  1 <= trucoValue (store w) <= 4.
Proof.
  intros w.
  assert (H : trucoShape (store (mount createDeck))).
  { left. split; vm_compute; reflexivity. }
  destruct (truco_value_never_drops
              [TrucoClicked; EnvidoClicked; TimerFired; TrucoClicked] _ H) as (_ & V & _).
  assert (E : trucoValue (store (mount createDeck)) = 1) by (vm_compute; reflexivity).
  fold w in V. lia.
Defined.

(** ** Starting over *)

(** The "Next Hand" button works in state [roundEnd] only and the "New
    Game" button in state [gameEnd] only; elsewhere a call changes
    nothing.  A new hand keeps the two scores and nothing else of the
    hand before: the store is that of a first deal of the same deck, with
    the scores carried over.  A new game forgets the scores as well: the
    store is exactly that of the first deal.  Neither touches the pending
    timers. *)
Theorem new_hand_keeps_only_the_scores :
  forall newDeck w,
    (gameState (store w) = "roundEnd" ->
     store (snd (clickNextHand newDeck w))
     = with_playerScore (playerScore (store w))
         (with_opponentScore (opponentScore (store w)) (store (mount newDeck)))
     /\ timers (snd (clickNextHand newDeck w)) = timers w)
    /\ (gameState (store w) = "gameEnd" ->
        store (snd (clickNewGame newDeck w)) = store (mount newDeck)
        /\ timers (snd (clickNewGame newDeck w)) = timers w)
    /\ (gameState (store w) <> "roundEnd" -> clickNextHand newDeck w = (Return tt, w))
    /\ (gameState (store w) <> "gameEnd" -> clickNewGame newDeck w = (Return tt, w)).
Proof.
  intros d w. unfold clickNextHand, clickNewGame, mount.
  split; [|split; [|split]].
  - intros G. apply String.eqb_eq in G. rewrite G.
    unfold startNewHand, calculateEnvidoPoints, initialStore.
    cbn [bind modify setDeck setPlayerHand setOpponentHand setRounds setCurrentRound
         setGameState setTruco setTrucoValue setEnvido setRoundCards setRoundWins
         setMessage setEnvidoPoints fst snd now store timers].
    read_store. split; reflexivity.
  - intros G. apply String.eqb_eq in G. rewrite G.
    unfold startNewHand, calculateEnvidoPoints, initialStore.
    cbn [bind modify setDeck setPlayerHand setOpponentHand setRounds setCurrentRound
         setGameState setTruco setTrucoValue setEnvido setRoundCards setRoundWins
         setMessage setEnvidoPoints setPlayerScore setOpponentScore
         fst snd now store timers].
    read_store. split; reflexivity.
  - intros G. apply String.eqb_neq in G. rewrite G. reflexivity.
  - intros G. apply String.eqb_neq in G. rewrite G. reflexivity.
Qed.

Lemma new_hand_keeps_only_the_scores_witness :
  let w := quiet (with_gameState "gameEnd"
                    (with_playerScore 16 (with_opponentScore 9 idleStore))) in
  store (snd (clickNewGame createDeck w)) = store (mount createDeck).
Proof.
  intros w.
  destruct (new_hand_keeps_only_the_scores createDeck w) as (_ & H & _).
  exact (proj1 (H eq_refl)).
Defined.

(** ** Advice *)

Lemma sortedHandOf_facts hand :
  Permutation (sortedHandOf hand) hand
  /\ StronglySorted (fun a b => getCardRank b <= getCardRank a) (sortedHandOf hand).
Proof.
  unfold sortedHandOf. split.
  - rewrite <- Permutation_rev. apply (sort_perm getCardRank).
  - apply (sorted_rev getCardRank). apply sort_sorted.
Qed.

Lemma sortedHandOf_ends hand :
  hand <> [] ->
  exists weakest strongest,
    index (sortedHandOf hand) 0 = Some weakest
    /\ index (sortedHandOf hand) (Z.of_nat (List.length (sortedHandOf hand)) - 1)
       = Some strongest
    /\ In weakest hand /\ In strongest hand
    /\ forall c, In c hand ->
         getCardRank strongest <= getCardRank c <= getCardRank weakest.
Proof.
  intros Hne. destruct (sortedHandOf_facts hand) as [P S].
  destruct (sortedHandOf hand) as [|w l] eqn:E.
  { exfalso. apply Hne. apply Permutation_nil. exact P. }
  assert (Hs : exists x, hd_error (sort (fun a b => getCardRank a - getCardRank b) hand)
                        = Some x).
  { destruct (sort (fun a b => getCardRank a - getCardRank b) hand) as [|x l'] eqn:Es.
    - exfalso. apply Hne, Permutation_nil. rewrite <- Es. apply (sort_perm getCardRank).
    - exists x. reflexivity. }
  destruct Hs as [x Hx].
  exists w, x. split; [reflexivity|]. split.
  { rewrite <- E. unfold sortedHandOf. rewrite last_of_rev. exact Hx. }
  assert (Ps : Permutation (sort (fun a b => getCardRank a - getCardRank b) hand) hand)
    by apply (sort_perm getCardRank).
  split; [eapply Permutation_in; [exact P | now left]|].
  split.
  { eapply Permutation_in; [exact Ps|].
    destruct (sort (fun a b => getCardRank a - getCardRank b) hand); [discriminate|].
    inversion Hx; subst. now left. }
  intros c Hc. split.
  - apply (hd_sorted_least getCardRank
             (sort (fun a b => getCardRank a - getCardRank b) hand) x);
      [apply sort_sorted | exact Hx|].
    eapply Permutation_in; [apply Permutation_sym; exact Ps | exact Hc].
  - apply StronglySorted_inv in S as [_ F]. rewrite Forall_forall in F.
    apply (Permutation_in _ (Permutation_sym P)) in Hc.
    destruct Hc as [<-|Hc]; [lia | now apply F].
Qed.

(** The advice never fails to be computed.  With no card in hand it says
    so.  In the first round with two or more cards it names the second
    weakest card of the hand.  Otherwise it names, as the card to play
    when ahead and under the words "your weakest card", the card of least
    rank index, which is the strongest of the hand; and when behind or
    level, under the words "strongest card", the card of greatest rank
    index, the weakest of the hand. *)
Theorem getCardAdvice_cards :
  forall s,
    (playerHand s = [] -> getCardAdvice s = Return "You have no cards left to play.")
    /\ (exists text, getCardAdvice s = Return text)
    /\ (currentRound s = 1 -> (2 <= List.length (playerHand s))%nat ->
        exists weakest midCard rest,
          Permutation (weakest :: midCard :: rest) (playerHand s)
          /\ getCardRank midCard <= getCardRank weakest
          /\ (forall c, In c rest -> getCardRank c <= getCardRank midCard)
          /\ getCardAdvice s
             = Return (template ["Consider playing your "; spanishName (value midCard);
                                 " de "; suitName (suit midCard);
                                 ". It's a mid-strength card, letting you save stronger cards for later rounds."]))
    /\ (playerHand s <> [] ->
        currentRound s <> 1 \/ List.length (playerHand s) = 1%nat ->
        exists strongest weakest,
          In strongest (playerHand s) /\ In weakest (playerHand s)
          /\ (forall c, In c (playerHand s) ->
                getCardRank strongest <= getCardRank c <= getCardRank weakest)
          /\ getCardAdvice s
             = Return
                 (if player (roundWins s) >? opponent (roundWins s) then
                    template ["You're ahead in rounds! Consider playing your weakest card (";
                              spanishName (value strongest); " de ";
                              suitName (suit strongest); ") to preserve strength."]
                  else if player (roundWins s) <? opponent (roundWins s) then
                    template ["You need this round! Consider playing your strongest card (";
                              spanishName (value weakest); " de ";
                              suitName (suit weakest); ")."]
                  else
                    template ["Your strongest card is "; spanishName (value weakest);
                              " de "; suitName (suit weakest); "."])).
Proof.
  intros s.
  assert (Hmid : currentRound s = 1 -> (2 <= List.length (playerHand s))%nat ->
        exists weakest midCard rest,
          Permutation (weakest :: midCard :: rest) (playerHand s)
          /\ getCardRank midCard <= getCardRank weakest
          /\ (forall c, In c rest -> getCardRank c <= getCardRank midCard)
          /\ getCardAdvice s
             = Return (template ["Consider playing your "; spanishName (value midCard);
                                 " de "; suitName (suit midCard);
                                 ". It's a mid-strength card, letting you save stronger cards for later rounds."])).
  { intros R L. unfold getCardAdvice.
    destruct (Z.of_nat (List.length (playerHand s)) =? 0) eqn:E0;
      [apply Z.eqb_eq in E0; lia|].
    rewrite R. cbn [Z.eqb Pos.eqb andb].
    destruct (Z.of_nat (List.length (playerHand s)) >=? 2) eqn:E2.
    2:{ rewrite Z.geb_leb in E2. apply Z.leb_gt in E2. lia. }
    fold (sortedHandOf (playerHand s)).
    destruct (sortedHandOf_facts (playerHand s)) as [P S].
    destruct (sortedHandOf (playerHand s)) as [|w [|m rest]] eqn:Es.
    - apply Permutation_length in P. simpl in P. lia.
    - apply Permutation_length in P. simpl in P. lia.
    - exists w, m, rest. split; [exact P|].
      apply StronglySorted_inv in S as [S Fw]. apply StronglySorted_inv in S as [_ Fm].
      rewrite Forall_forall in Fw, Fm.
      split; [apply Fw; now left|]. split; [exact Fm | reflexivity]. }
  assert (Hend : playerHand s <> [] ->
        currentRound s <> 1 \/ List.length (playerHand s) = 1%nat ->
        exists strongest weakest,
          In strongest (playerHand s) /\ In weakest (playerHand s)
          /\ (forall c, In c (playerHand s) ->
                getCardRank strongest <= getCardRank c <= getCardRank weakest)
          /\ getCardAdvice s
             = Return
                 (if player (roundWins s) >? opponent (roundWins s) then
                    template ["You're ahead in rounds! Consider playing your weakest card (";
                              spanishName (value strongest); " de ";
                              suitName (suit strongest); ") to preserve strength."]
                  else if player (roundWins s) <? opponent (roundWins s) then
                    template ["You need this round! Consider playing your strongest card (";
                              spanishName (value weakest); " de ";
                              suitName (suit weakest); ")."]
                  else
                    template ["Your strongest card is "; spanishName (value weakest);
                              " de "; suitName (suit weakest); "."])).
  { intros Hne Hcase. unfold getCardAdvice.
    destruct (Z.of_nat (List.length (playerHand s)) =? 0) eqn:E0.
    { apply Z.eqb_eq in E0. destruct (playerHand s); [congruence | simpl in E0; lia]. }
    assert (Eg : (currentRound s =? 1) && (Z.of_nat (List.length (playerHand s)) >=? 2)
                 = false).
    { apply andb_false_iff. destruct Hcase as [R|L].
      - left. now apply Z.eqb_neq.
      - right. rewrite L. reflexivity. }
    rewrite Eg. fold (sortedHandOf (playerHand s)).
    destruct (sortedHandOf_ends (playerHand s) Hne) as (w & x & I0 & Il & Hw & Hx & M).
    exists x, w. split; [exact Hx|]. split; [exact Hw|]. split; [exact M|].
    rewrite I0, Il.
    destruct (player (roundWins s) >? opponent (roundWins s)); [reflexivity|].
    destruct (player (roundWins s) <? opponent (roundWins s)); reflexivity. }
  split.
  { intros E. unfold getCardAdvice. rewrite E. reflexivity. }
  split; [|split; [exact Hmid | exact Hend]].
  destruct (playerHand s) as [|c l] eqn:Eh.
  { unfold getCardAdvice. rewrite Eh. eexists. reflexivity. }
  destruct (Z.eq_dec (currentRound s) 1) as [R|R].
  - destruct l as [|c2 l].
    + destruct Hend as (x & w & _ & _ & _ & E); [discriminate | now right|]. eauto.
    + destruct Hmid as (w & m & rest & _ & _ & _ & E); [exact R | simpl; lia|]. eauto.
  - destruct Hend as (x & w & _ & _ & _ & E); [discriminate | now left|]. eauto.
Qed.

Lemma getCardAdvice_cards_witness :
  let s := with_currentRound 2 (with_roundWins (mkSides 1 0) (store (mount createDeck))) in
  exists strongest,
    In strongest (playerHand s)
    /\ (forall c, In c (playerHand s) -> getCardRank strongest <= getCardRank c)
    /\ getCardAdvice s
       = Return (template ["You're ahead in rounds! Consider playing your weakest card (";
                           spanishName (value strongest); " de ";
                           suitName (suit strongest); ") to preserve strength."]).
Proof.
  intros s.
  destruct (getCardAdvice_cards s) as (_ & _ & _ & H).
  assert (Hne : playerHand s <> []) by (vm_compute; discriminate).
  assert (Hr : currentRound s <> 1 \/ List.length (playerHand s) = 1%nat)
    by (left; vm_compute; discriminate).
  destruct (H Hne Hr) as (x & w & Hx & _ & M & E).
  exists x. split; [exact Hx|]. split; [intros c Hc; apply (M c Hc)|].
  rewrite E. reflexivity.
Defined.

(** ** Explanations *)

(** The explanation of a deck card starts with its Spanish name and
    never shows a missing name.  The four strongest cards of the ranking,
    and no other, carry their special description in place of a
    position; every other card shows its position in the ranking, its
    rank index plus one, a number from 5 to 40. *)
Theorem cardExplanationText_of_deck_card :
  forall card,
    In card createDeck ->
    let text := cardExplanationText card in
    let key := template [suit card; showNumber (value card)] in
    String.prefix (template [spanishName (value card); " de "; suitName (suit card); " - "])
                  text = true
    /\ contains "undefined" text = false
    /\ (getCardRank card < 4 <-> exists special, SPECIAL_CARDS key = Some special)
    /\ (forall special, SPECIAL_CARDS key = Some special ->
          contains special text = true /\ contains "Ranked" text = false)
    /\ (4 <= getCardRank card ->
        contains (template ["Ranked #"; showNumber (getCardRank card + 1);
                            " out of 40 cards"]) text = true
        /\ 5 <= getCardRank card + 1 <= 40).
Proof.
  intros card Hc text key.
  assert (H : explanation_checked card = true).
  { exact (forallb_In explanation_checked createDeck ltac:(vm_compute; reflexivity) card Hc). }
  pose proof (getCardRank_in_deck card Hc) as R.
  unfold explanation_checked in H. fold text key in H.
  apply andb_true_iff in H as [H H3]. apply andb_true_iff in H as [H1 H2].
  apply negb_true_iff in H2.
  split; [exact H1|]. split; [exact H2|].
  destruct (getCardRank card <? 4) eqn:L.
  - apply Z.ltb_lt in L. destruct (SPECIAL_CARDS key) as [sp|]; [|discriminate].
    apply andb_true_iff in H3 as [A B]. apply negb_true_iff in B.
    split; [split; [eauto | intros _; exact L]|]. split.
    + intros sp' E. inversion E; subst. auto.
    + intros G. lia.
  - apply Z.ltb_ge in L. destruct (SPECIAL_CARDS key) as [sp|]; [discriminate|].
    split; [split; [lia | intros [sp E]; discriminate]|]. split.
    + intros sp E. discriminate.
    + intros _. split; [exact H3 | lia].
Qed.

Lemma cardExplanationText_of_deck_card_witness :
  contains "Ranked #40 out of 40 cards" (cardExplanationText (mkCard "copas" 4)) = true.
Proof.
  assert (Hc : In (mkCard "copas" 4) createDeck) by (simpl; auto 40).
  destruct (cardExplanationText_of_deck_card _ Hc) as (_ & _ & _ & _ & H).
  apply H. vm_compute. discriminate.
Defined.

(** ** The first card of a hand *)

(** A component in state [playing] with a card in the player's slot and
    no timer pending does not move any more: no click and no timer
    changes it. *)
Lemma blocked_world_stays w :
  gameState (store w) = "playing" -> player (roundCards (store w)) <> None ->
  timers w = [] ->
  forall es, uiEvents es w = w.
Proof.
  intros G Hp Ht es. induction es as [|e es IH]; [reflexivity|].
  cbn [uiEvents fold_left]. fold (uiEvents es (uiEvent e w)).
  assert (E : uiEvent e w = w); [|rewrite E; exact IH].
  assert (Hplay : playable (store w) = false).
  { unfold playable. destruct (player (roundCards (store w))); [|congruence].
    apply andb_false_r. }
  assert (Hctl : controlsShown (store w) = false) by exact Hplay.
  destruct e as [[card| | |]|d|d]; cbn [uiEvent handEvent].
  - unfold clickCard. rewrite Hplay, andb_false_r. reflexivity.
  - unfold clickTruco. rewrite Hctl. reflexivity.
  - unfold clickEnvido, envidoEnabled. rewrite Hctl. reflexivity.
  - unfold step. rewrite Ht. reflexivity.
  - unfold clickNextHand. rewrite G. reflexivity.
  - unfold clickNewGame. rewrite G. reflexivity.
Qed.

(** The first card played blocks the hand.  The reply that [playCard]
    schedules runs with the values of the render of the click, where the
    player's slot is still empty: it throws, the opponent never plays,
    and the component is left in state [playing] with the card in the
    player's slot and nothing pending.  From there no click on a card or
    on a button, and no timer, changes the store any more. *)
Theorem first_card_blocks_the_hand :
  forall card w,
    timers w = [] ->
    mem card (playerHand (store w)) = true -> playable (store w) = true ->
    opponentHand (store w) <> [] ->
    let r := settle 1 (snd (clickCard card w)) in
    (exists newPlayerHand, fst r = [(OpponentTurn newPlayerHand, Throw TypeError)])
    /\ player (roundCards (store (snd r))) = Some card
    /\ opponent (roundCards (store (snd r))) = opponent (roundCards (store w))
    /\ opponentHand (store (snd r)) = opponentHand (store w)
    /\ rounds (store (snd r)) = rounds (store w)
    /\ gameState (store (snd r)) = "playing"
    /\ timers (snd r) = []
    /\ forall es, uiEvents es (snd r) = snd r.
Proof.
  intros card w Ht Hm Hp Hne r.
  assert (Hr : exists h st nw,
             r = ([(OpponentTurn h, Throw TypeError)], mkWorld nw st [])
             /\ player (roundCards st) = Some card
             /\ opponent (roundCards st) = opponent (roundCards (store w))
             /\ opponentHand st = opponentHand (store w)
             /\ rounds st = rounds (store w)
             /\ gameState st = "playing").
  { subst r. unfold clickCard. rewrite Hm, Hp. cbn [andb].
    unfold playable in Hp. apply andb_true_iff in Hp as [G N].
    unfold playCard. rewrite G. cbn [negb]. run_handler. rewrite Ht. cbn [app].
    destruct (player (roundCards (store w))) as [c|] eqn:Ep; [discriminate|].
    assert (Hs : exists x l, sortedHandOf (opponentHand (store w)) = x :: l).
    { destruct (sortedHandOf (opponentHand (store w))) as [|x l] eqn:E; [|eauto].
      exfalso. destruct (opponentHand (store w)) as [|y t] eqn:Eo; [congruence|].
      assert (I : In y (sortedHandOf (y :: t))) by (apply in_sortedHandOf; now left).
      rewrite E in I. destruct I. }
    destruct Hs as (x & l & Es).
    erewrite settle_fire; [|pop_next|].
    2:{ cbn [callback closure fire]. unfold playOpponentCard. rewrite Ep, Es.
        run_handler. reflexivity. }
    cbn [callback settle fst snd]. do 3 eexists. split; [reflexivity|].
    read_store. apply String.eqb_eq in G. repeat split; try reflexivity. exact G. }
  destruct Hr as (h & st & nw & Er & H1 & H2 & H3 & H4 & H5).
  rewrite Er. cbn [fst snd store timers].
  split; [eauto|]. split; [exact H1|]. split; [exact H2|]. split; [exact H3|].
  split; [exact H4|]. split; [exact H5|]. split; [reflexivity|].
  apply blocked_world_stays; cbn [store timers]; [exact H5 | congruence | reflexivity].
Qed.

Lemma first_card_blocks_the_hand_witness :
  let w := snd (settle 1 (snd (clickCard (mkCard "espadas" 2) (mount createDeck)))) in
  opponent (roundCards (store w)) = None
  /\ uiEvents [DuringHand (CardClicked (mkCard "espadas" 1)); DuringHand TimerFired;
               NextHandClicked createDeck] w = w.
Proof.
  intros w.
  assert (Ht : timers (mount createDeck) = []) by (vm_compute; reflexivity).
  assert (Hm : mem (mkCard "espadas" 2) (playerHand (store (mount createDeck))) = true)
    by (vm_compute; reflexivity).
  assert (Hp : playable (store (mount createDeck)) = true) by (vm_compute; reflexivity).
  assert (Hne : opponentHand (store (mount createDeck)) <> []) by (vm_compute; discriminate).
  destruct (first_card_blocks_the_hand _ _ Ht Hm Hp Hne) as (_ & _ & Ho & _ & _ & _ & _ & B).
  split.
  - fold w in Ho. rewrite Ho. vm_compute. reflexivity.
  - apply B.
Defined.
